(** * The multi-agent Telegram bot: message handling, sink and session gate

    A shallow embedding of the repository's Python modules
    [bot/interface.py], [core/agent_system.py], [core/session_manager.py]
    and [bot/handlers.py], followed by the properties established about
    them.

    Python texts are sequences of Unicode code points; the Telegram
    transport and the group-chat library are external and appear as
    scripted environments. *)

From Stdlib Require Import NArith ZArith Lia Bool.
From Stdlib Require Import Strings.String Strings.Ascii.
From stdpp Require Import base option list functions gmap.

Local Open Scope N_scope.

(* ===================================================================== *)
(** * Python text primitives *)
(* ===================================================================== *)

Module Py.

(** A [str] is the list of its code points. *)
Abbreviation char := N (only parsing).
Abbreviation str := (list N) (only parsing).

(** ** Literals

    String literals of this file are UTF-8; [utf8] decodes one into its
    code points, as the Python parser does for the literals of the
    source. *)
Fixpoint decode_utf8 (bs : list N) : str :=
  match bs with
  | [] => []
  | b0 :: t0 =>
    if b0 <? 128 then b0 :: decode_utf8 t0
    else if b0 <? 224 then
      match t0 with
      | b1 :: t1 => ((b0 mod 32) * 64 + b1 mod 64) :: decode_utf8 t1
      | _ => []
      end
    else if b0 <? 240 then
      match t0 with
      | b1 :: b2 :: t2 =>
        ((b0 mod 16) * 4096 + (b1 mod 64) * 64 + b2 mod 64) :: decode_utf8 t2
      | _ => []
      end
    else
      match t0 with
      | b1 :: b2 :: b3 :: t3 =>
        ((b0 mod 8) * 262144 + (b1 mod 64) * 4096 + (b2 mod 64) * 64 + b3 mod 64)
          :: decode_utf8 t3
      | _ => []
      end
  end.

Definition utf8 (s : string) : str :=
  decode_utf8 (List.map N_of_ascii (list_ascii_of_string s)).

(** ** Truthiness and whitespace *)

(** [not s] for a text: only the empty text is falsy. *)
Definition is_empty (s : str) : bool :=
  match s with [] => true | _ => false end.

(** The code points for which [str.isspace] holds; these are the ones
    [str.strip()] removes. *)
Definition is_space (c : char) : bool :=
  ((9 <=? c) && (c <=? 13)) || ((28 <=? c) && (c <=? 32))
  || (c =? 133) || (c =? 160) || (c =? 5760)
  || ((8192 <=? c) && (c <=? 8202))
  || (c =? 8232) || (c =? 8233) || (c =? 8239) || (c =? 8287) || (c =? 12288).

Fixpoint lstrip (s : str) : str :=
  match s with
  | [] => []
  | c :: s' => if is_space c then lstrip s' else s
  end.

Definition rstrip (s : str) : str := rev (lstrip (rev s)).

(** [s.strip()] *)
Definition strip (s : str) : str := rstrip (lstrip s).

(** Texts made of whitespace only, and texts without any. *)
Definition spaces (ws : str) : Prop := Forall (fun c => is_space c = true) ws.
Definition solid (p : str) : Prop := Forall (fun c => is_space c = false) p.

(** ** Substring tests *)

(** [s.startswith(p)] *)
Fixpoint startswith (p s : str) : bool :=
  match p, s with
  | [], _ => true
  | _ :: _, [] => false
  | a :: p', b :: s' => (a =? b) && startswith p' s'
  end.

(** [needle in s] *)
Fixpoint contains (needle s : str) : bool :=
  startswith needle s ||
  match s with
  | [] => false
  | _ :: s' => contains needle s'
  end.

(** ** Replacement

    [s.replace(old, new)] for a non-empty [old]: the text is scanned from
    the left, every occurrence of [old] found is replaced and the scan
    resumes behind it.  [skip] counts the code points of the current
    occurrence that are still to be passed over. *)
Fixpoint replace_from (old new : str) (skip : nat) (s : str) : str :=
  match s with
  | [] => []
  | c :: s' =>
    match skip with
    | S k => replace_from old new k s'
    | O =>
      if startswith old s
      then new ++ replace_from old new (pred (length old)) s'
      else c :: replace_from old new O s'
    end
  end.

Definition replace (old new s : str) : str := replace_from old new O s.

(** ** Case mapping

    [_handle_message] looks at [content.upper()] and [content.lower()]
    only to ask whether a fixed ASCII needle occurs in them.  The tables
    below give the full Unicode 14 mapping of every code point whose
    upper-case form contains a letter of [TERMINATE], and of every code
    point whose lower-case form contains a character of [next speaker]
    or [#]; the code points outside the tables, none of which maps to
    any of those characters, are left in place. *)
Definition upper_char (c : char) : str :=
  if (97 <=? c) && (c <=? 122) then [c - 32]
  else if c =? 305 then [73]               (* dotless i *)
  else if c =? 329 then [700; 78]          (* n preceded by apostrophe *)
  else if c =? 7831 then [84; 776]         (* t with diaeresis *)
  else if c =? 7834 then [65; 702]         (* a with right half ring *)
  else if c =? 64257 then [70; 73]         (* ligature fi *)
  else if c =? 64259 then [70; 70; 73]     (* ligature ffi *)
  else if c =? 64261 then [83; 84]         (* ligature long s t *)
  else if c =? 64262 then [83; 84]         (* ligature st *)
  else [c].

(** [s.upper()] *)
Definition upper (s : str) : str := flat_map upper_char s.

Definition lower_char (c : char) : char :=
  if (65 <=? c) && (c <=? 90) then c + 32
  else if c =? 8490 then 107               (* Kelvin sign *)
  else c.

(** [s.lower()] *)
Definition lower (s : str) : str := List.map lower_char s.

End Py.

Import Py.

(* ===================================================================== *)
(** * The runtime environment *)
(* ===================================================================== *)

Module Env.

(** ** Exceptions *)

(** The exception classes the handlers tell apart: [except TelegramError]
    in the sink, [except Exception] elsewhere; [BaseException] stands for
    what [except Exception] lets through (cancellation, interrupts).
    [AttributeError] is what reading an attribute off [None] raises. *)
Inductive exc_class :=
  TelegramError | ValueError | AttributeError | OtherException | BaseException.

Record exn := Exn { exn_class : exc_class; exn_msg : str }.

Definition is_TelegramError (e : exn) : bool :=
  match exn_class e with TelegramError => true | _ => false end.

Definition is_Exception (e : exn) : bool :=
  match exn_class e with BaseException => false | _ => true end.

(** ** The Telegram transport *)

Inductive parse_mode := HTML.

(** The two Bot API requests the repository issues. *)
Inductive api_call :=
| SendMessage (chat_id : Z) (text : str) (mode : option parse_mode)
| ReplyText (chat_id : Z) (text : str) (mode : option parse_mode).

(** ** Objects *)

Inductive Bot := BotObj (id : nat).
Inductive Loop := LoopObj (id : nat).

(** A [Session] object ([core/session_manager.py], [Session.__init__]). *)
Record Session := MkSession {
  chat_id : Z;
  is_busy : bool;
  bot : option Bot;
  loop : option Loop
}.

(** ** The world

    [sessions] is the dictionary of the [SessionManager] singleton; its
    values are references into [heap], the store of [Session] objects, so
    that a handler and the dictionary may hold the same object.  The
    references below [next] are the allocated ones.  [net] scripts the
    transport: the outcome of each coming Bot API request in turn, [None]
    for a delivery and [Some e] for the exception raised (an exhausted
    script delivers).  [outbox] records every request made, with its
    outcome. *)
Record world := MkWorld {
  sessions : gmap Z nat;
  heap : nat -> Session;
  next : nat;
  net : list (option exn);
  outbox : list (api_call * option exn)
}.

(** ** Computations: state and exceptions over a state [S] *)

Definition result (A : Type) : Type := (A + exn)%type.

Definition M (S A : Type) : Type := S -> result A * S.

Definition ret {S A} (a : A) : M S A := fun s => (inl a, s).

Definition raise {S A} (e : exn) : M S A := fun s => (inr e, s).

Definition bind {S A B} (m : M S A) (k : A -> M S B) : M S B :=
  fun s =>
    match m s with
    | (inl a, s') => k a s'
    | (inr e, s') => (inr e, s')
    end.

Definition get {S} : M S S := fun s => (inl s, s).

Definition modify {S} (f : S -> S) : M S unit := fun s => (inl tt, f s).

(** [try: body / except C as e: handler e], [catches] deciding the
    classes [C] covers. *)
Definition try_except {S A} (body : M S A) (catches : exn -> bool) (handler : exn -> M S A)
  : M S A :=
  fun s =>
    match body s with
    | (inl a, s') => (inl a, s')
    | (inr e, s') => if catches e then handler e s' else (inr e, s')
    end.

(** [try: body / finally: final]: [final] runs on every way out of
    [body]; an exception of [final] itself takes precedence. *)
Definition try_finally {S A} (body : M S A) (final : M S unit) : M S A :=
  fun s =>
    match body s with
    | (r, s') =>
      match final s' with
      | (inl _, s'') => (r, s'')
      | (inr e, s'') => (inr e, s'')
      end
    end.

(** One Bot API request. *)
Definition request (c : api_call) : M world unit :=
  fun w =>
    match net w with
    | Some e :: rest =>
      (inr e, MkWorld (sessions w) (heap w) (next w) rest (outbox w ++ [(c, Some e)]))
    | None :: rest =>
      (inl tt, MkWorld (sessions w) (heap w) (next w) rest (outbox w ++ [(c, None)]))
    | [] =>
      (inl tt, MkWorld (sessions w) (heap w) (next w) [] (outbox w ++ [(c, None)]))
    end.

(** The outcome the transport has in store for the [n]-th coming request. *)
Definition coming (w : world) (n : nat) : option exn :=
  match net w !! n with
  | Some o => o
  | None => None
  end.

(** Computations that leave the session dictionary alone. *)
Definition keeps_registry {A} (m : M world A) : Prop :=
  forall w, sessions (m w).2 = sessions w.

End Env.

Import Env.

Declare Scope py_scope.
Delimit Scope py_scope with py.
Notation "x <- m ;; k" := (bind m (fun x => k))
  (at level 100, m at next level, right associativity) : py_scope.
Notation "m ;;; k" := (bind m (fun _ => k))
  (at level 100, right associativity) : py_scope.
Local Open Scope py_scope.

(** The character classes of the [re] module, which are Unicode tables of
    the Python runtime: [\d] and [\w]. *)
Class UnicodeData := {
  re_digit : char -> bool;
  re_word : char -> bool
}.

(* ===================================================================== *)
(** * [bot/interface.py] *)
(* ===================================================================== *)

Module TelegramInterface.

Section Interface.
Context {ud : UnicodeData}.

(** [re.sub(pattern, repl, s)] for a pattern that matches no empty text:
    [matcher s] gives the length of the match of the pattern at the start
    of [s], if there is one. *)
Fixpoint re_sub_from (matcher : str -> option nat) (repl : str) (skip : nat) (s : str)
  : str :=
  match s with
  | [] => []
  | c :: s' =>
    match skip with
    | S k => re_sub_from matcher repl k s'
    | O =>
      match matcher s with
      | Some n => repl ++ re_sub_from matcher repl (pred n) s'
      | None => c :: re_sub_from matcher repl O s'
      end
    end
  end.

Definition re_sub (matcher : str -> option nat) (repl s : str) : str :=
  re_sub_from matcher repl O s.

(** The longest run of code points of a class at the start of a text. *)
Fixpoint span (p : char -> bool) (s : str) : nat :=
  match s with
  | c :: s' => if p c then S (span p s') else O
  | [] => O
  end.

(** [>>>>>>>> EXECUTING CODE BLOCK \d+ \(inferred language is \w+\)\.\.\.] *)
Definition match_banner (s : str) : option nat :=
  let p1 := utf8 ">>>>>>>> EXECUTING CODE BLOCK " in
  let p2 := utf8 " (inferred language is " in
  let p3 := utf8 ")..." in
  if startswith p1 s then
    let s1 := drop (length p1) s in
    let d := span re_digit s1 in
    let s2 := drop d s1 in
    if (0 <? d)%nat && startswith p2 s2 then
      let s3 := drop (length p2) s2 in
      let n := span re_word s3 in
      if (0 <? n)%nat && startswith p3 (drop n s3)
      then Some (length p1 + d + length p2 + n + length p3)%nat
      else None
    else None
  else None.

(** Index of the first [>] of a text. *)
Fixpoint find_gt (s : str) : option nat :=
  match s with
  | [] => None
  | c :: s' => if c =? 62 then Some O else S <$> find_gt s'
  end.

(** [<[^>]+>] *)
Definition match_tag (s : str) : option nat :=
  match s with
  | 60 :: rest =>
    match find_gt rest with
    | Some (S i) => Some (S i + 2)%nat
    | _ => None
    end
  | _ => None
  end.

Definition nl : str := [10].

Definition _format_message (text role : str) : str :=
  let content := strip text in
  let content :=
    if contains (utf8 ">>>>>>>> EXECUTING CODE BLOCK") content
    then re_sub match_banner (utf8 "💻 <b>Выполнение кода</b>") content
    else content in
  let content :=
    if contains (utf8 "exitcode:") content
    then
      replace (utf8 "execution failed") (utf8 "❌ Ошибка")
        (replace (utf8 "execution succeeded") (utf8 "✅ Успешно")
          (replace (utf8 "Code output:") (nl ++ utf8 "<b>Результат:</b>")
            (replace (utf8 "exitcode:") (nl ++ utf8 "<b>Статус:</b>") content)))
    else content in
  let content :=
    if contains (utf8 "```python") content
    then
      replace (utf8 "```") (utf8 "</code></pre>")
        (replace (utf8 "```python") (utf8 "<pre><code class='language-python'>") content)
    else if contains (utf8 "```") content
    then
      replace (utf8 "```") (utf8 "</code></pre>")
        (replace (utf8 "```") (utf8 "<pre><code>") content)
    else content in
  utf8 "<b>" ++ role ++ utf8 "</b>" ++ nl ++ nl ++ content.

(** [TelegramInterface.send_message]; [self_chat_id] is [self.chat_id]
    (the bot object is the transport of the world). *)
Definition send_message (self_chat_id : Z) (text role : str) : M world bool :=
  if is_empty text || is_empty (strip text) then ret false
  else
    try_except
      (request (SendMessage self_chat_id (_format_message text role) (Some HTML)) ;;;
       ret true)
      is_TelegramError
      (fun _ =>
         try_except
           (let clean_text := re_sub match_tag [] text in
            request (SendMessage self_chat_id (role ++ nl ++ nl ++ clean_text) None) ;;;
            ret true)
           is_Exception
           (fun _ => ret false)).

End Interface.

End TelegramInterface.

(* ===================================================================== *)
(** * [core/agent_system.py] *)
(* ===================================================================== *)

Module AgentSystem.

(** The fields of an [AgentSystem] that its methods read or assign. *)
Record t := Mk {
  chat_id : Z;
  termination_detected : bool;
  last_message : str
}.

(** An entry of the [messages] list: [content] is [None] when the
    dictionary has no ["content"] key. *)
Record message := Msg { content : option str }.

(** What the group-chat library does inside [a_initiate_chat], as far as
    the repository can tell: it returns, it raises, or it calls the reply
    function registered for an agent and goes on according to what the
    call gave back. *)
Inductive chat :=
| Return
| Raise (e : exn)
| Reply (agent_name : str) (messages : list message)
        (k : result (bool * option str) -> chat).

(** The agents of the group chat and the speaker transitions allowed
    between them ([_create_agents], [allowed_transitions]). *)
Inductive agent := user_proxy | analyst | coder | executor.

Definition groupchat_agents : list agent := [user_proxy; analyst; coder; executor].

Definition allowed_transitions (a : agent) : list agent :=
  match a with
  | user_proxy => [analyst]
  | analyst => [coder; user_proxy]
  | coder => [executor]
  | executor => [analyst]
  end.

(** A sequence of speakers in which every change of speaker is allowed. *)
Fixpoint legal_turns (a : agent) (turns : list agent) : Prop :=
  match turns with
  | [] => True
  | b :: rest => In b (allowed_transitions a) /\ legal_turns b rest
  end.

Section Agents.
Context {ud : UnicodeData}.

Definition ROLES : list (str * str) :=
  [ (utf8 "user_proxy", utf8 "👤 User Proxy");
    (utf8 "analyst", utf8 "🧠 Analyst");
    (utf8 "coder", utf8 "👨‍💻 Coder");
    (utf8 "executor", utf8 "⚙️ Executor");
    (utf8 "manager", utf8 "🤖 Manager") ].

(** [d.get(key, default)] *)
Fixpoint dict_get (d : list (str * str)) (key default : str) : str :=
  match d with
  | [] => default
  | (k, v) :: d' => if bool_decide (k = key) then v else dict_get d' key default
  end.

(** [AgentSystem.__init__] *)
Definition init (chat_id : Z) : t := Mk chat_id false [].

Definition set_termination_detected (b : bool) (s : t * world) : t * world :=
  (Mk (chat_id s.1) b (last_message s.1), s.2).

Definition set_last_message (m : str) (s : t * world) : t * world :=
  (Mk (chat_id s.1) (termination_detected s.1) m, s.2).

(** A call on the world made from a method of the agent system. *)
Definition on_world {A} (m : M world A) : M (t * world) A :=
  fun s => match m s.2 with (r, w') => (r, (s.1, w')) end.

(** [await self.telegram_interface.send_message(text, role)] *)
Definition tg_send (text role : str) : M (t * world) bool :=
  self <- get ;;
  on_world (TelegramInterface.send_message (chat_id self.1) text role).

Definition final_role : str := utf8 "🎯 Финальный ответ".
Definition default_answer : str := utf8 "✅ Задача успешно выполнена командой экспертов".
Definition executor_role : str := utf8 "⚙️ Executor (Код)".
Definition TERMINATE : str := utf8 "TERMINATE".

(** [AgentSystem._handle_message]; the logging calls are left out. *)
Definition _handle_message (messages : list message) (agent_name : str)
  : M (t * world) (bool * option str) :=
  match last messages with
  | None => ret (false, None)
  | Some last_msg =>
    let content := strip (default [] (content last_msg)) in
    if is_empty content then ret (false, None)
    else if contains (utf8 "Next speaker:") content
            || contains (utf8 "next speaker") (lower content)
            || contains (utf8 "##") (lower content)
    then ret (false, None)
    else
      let role_display := dict_get ROLES agent_name (utf8 "🤖 " ++ agent_name) in
      let role_display :=
        if contains (utf8 ">>>>>>>> EXECUTING CODE BLOCK") content
           || contains (utf8 "exitcode:") content
        then executor_role else role_display in
      if contains TERMINATE (upper content) then
        modify (set_termination_detected true) ;;;
        let clean_content := strip (replace TERMINATE [] content) in
        if negb (is_empty clean_content) then
          tg_send clean_content final_role ;;;
          modify (set_last_message clean_content) ;;;
          ret (true, None)
        else
          tg_send default_answer final_role ;;;
          modify (set_last_message default_answer) ;;;
          ret (true, None)
      else
        tg_send content role_display ;;;
        ret (false, None)
  end.

(** The run of [a_initiate_chat]: every reply function registered by
    [_register_message_handlers] is [_handle_message] with the agent's
    name. *)
Fixpoint converse (c : chat) : M (t * world) unit :=
  match c with
  | Return => ret tt
  | Raise e => raise e
  | Reply agent_name messages k =>
    fun s =>
      match _handle_message messages agent_name s with
      | (r, s') => converse (k r) s'
      end
  end.

(** [AgentSystem.run_task]; [a_initiate_chat task] is what the library
    does when the user proxy opens the chat with [task]. *)
Definition run_task (a_initiate_chat : str -> chat) (task : str)
  : M (t * world) (bool * str) :=
  try_except (converse (a_initiate_chat task)) is_Exception (fun e => raise e) ;;;
  self <- get ;;
  ret (termination_detected self.1, last_message self.1).

End Agents.

End AgentSystem.

(* ===================================================================== *)
(** * [core/session_manager.py] *)
(* ===================================================================== *)

Module SessionManager.

Section Sessions.
Context {ud : UnicodeData}.

(** [Session.__init__] *)
Definition new_session (chat_id : Z) : Session := MkSession chat_id false None None.

(** Assignment to the attributes of the object behind a reference. *)
Definition set_is_busy (session : nat) (b : bool) : M world unit :=
  modify (fun w =>
    let o := heap w session in
    MkWorld (sessions w)
            (<[session := MkSession (Env.chat_id o) b (bot o) (loop o)]> (heap w))
            (next w) (net w) (outbox w)).

(** [Session.set_context] *)
Definition set_context (session : nat) (b : Bot) (l : Loop) : M world unit :=
  modify (fun w =>
    let o := heap w session in
    MkWorld (sessions w)
            (<[session := MkSession (Env.chat_id o) (is_busy o) (Some b) (Some l)]> (heap w))
            (next w) (net w) (outbox w)).

(** [Session.run_task]: a new [AgentSystem] for every task. *)
Definition run_task (a_initiate_chat : str -> AgentSystem.chat) (session : nat) (task : str)
  : M world (bool * str) :=
  fun w =>
    let o := heap w session in
    match bot o, loop o with
    | Some _, Some _ =>
      let agent_system := AgentSystem.init (Env.chat_id o) in
      match AgentSystem.run_task a_initiate_chat task (agent_system, w) with
      | (r, (_, w')) => (r, w')
      end
    | _, _ => (inr (Exn ValueError (utf8 "Bot context not set")), w)
    end.

(** [SessionManager.get_session] *)
Definition get_session (chat_id : Z) : M world nat :=
  fun w =>
    match sessions w !! chat_id with
    | Some session => (inl session, w)
    | None =>
      let session := next w in
      (inl session,
       MkWorld (<[chat_id := session]> (sessions w))
               (<[session := new_session chat_id]> (heap w))
               (S (next w)) (net w) (outbox w))
    end.

(** [SessionManager.clear_session] *)
Definition clear_session (chat_id : Z) : M world unit :=
  fun w =>
    match sessions w !! chat_id with
    | Some _ =>
      (inl tt, MkWorld (delete chat_id (sessions w)) (heap w) (next w) (net w) (outbox w))
    | None => (inl tt, w)
    end.

End Sessions.

End SessionManager.

(* ===================================================================== *)
(** * [bot/handlers.py] *)
(* ===================================================================== *)

Module Handlers.

(** A handler is a coroutine: between two [await]s it runs without any
    other handler in between.  The definitions below are the handlers run
    from beginning to end; what another handler finds and does while one
    is suspended is studied on the worlds involved (see
    [clear_while_busy]). *)

(** The parts of a Telegram update and of the handler context that the
    handlers read. *)
Record Message := MkMessage { text : option str }.

Record Update := MkUpdate {
  message : option Message;
  effective_chat_id : Z
}.

Record Context := MkContext {
  context_bot : Bot;
  running_loop : Loop
}.

Section Handlers.
Context {ud : UnicodeData}.
Variable a_initiate_chat : str -> AgentSystem.chat.

(** [await update.message.reply_text(text, parse_mode=mode)].  An update
    may come without a message ([update.message] is [None], as for an
    edited message or a channel post): reading [reply_text] off it raises
    [AttributeError] before any request is made. *)
Definition no_reply_text : exn :=
  Exn AttributeError (utf8 "'NoneType' object has no attribute 'reply_text'").

Definition reply_text (update : Update) (text : str) (mode : option parse_mode)
  : M world unit :=
  match message update with
  | None => raise no_reply_text
  | Some _ => request (ReplyText (effective_chat_id update) text mode)
  end.

Definition wait_notice : str :=
  utf8 "⏳ Задача уже выполняется. Пожалуйста, подождите завершения.".

Definition user_role : str := utf8 "👤 Пользователь".
Definition system_role : str := utf8 "ℹ️ Система".

(** [reset] *)
Definition reset (update : Update) (context : Context) : M world unit :=
  SessionManager.clear_session (effective_chat_id update) ;;;
  reply_text update (utf8 "🧹 Память очищена!") (Some HTML).

(** [start] *)
Definition welcome : str :=
  utf8 "🤖 <b>YandexGPT Multi-Agent System</b>" ++ [10; 10]
  ++ utf8 "<b>Команда экспертов:</b>" ++ [10]
  ++ utf8 "👤 <b>User Proxy</b> - Прием задач" ++ [10]
  ++ utf8 "🧠 <b>Analyst</b> - Анализ и планирование" ++ [10]
  ++ utf8 "👨‍💻 <b>Coder</b> - Написание кода" ++ [10]
  ++ utf8 "⚙️ <b>Executor</b> - Выполнение кода" ++ [10]
  ++ utf8 "🤖 <b>Manager</b> - Координация" ++ [10; 10]
  ++ utf8 "<b>Вы увидите:</b>" ++ [10]
  ++ utf8 "✅ Все шаги решения задачи" ++ [10]
  ++ utf8 "💻 Результаты выполнения кода" ++ [10]
  ++ utf8 "🎯 Финальный ответ" ++ [10; 10]
  ++ utf8 "Напишите вашу задачу! /reset для очистки памяти.".

Definition start (update : Update) (context : Context) : M world unit :=
  reply_text update welcome (Some HTML).

(** The [try] block of [handle_message]. *)
Definition run_and_report (session : nat) (chat_id : Z) (text : str) (context : Context)
  : M world unit :=
  SessionManager.set_is_busy session true ;;;
  SessionManager.set_context session (context_bot context) (running_loop context) ;;;
  TelegramInterface.send_message chat_id text user_role ;;;
  TelegramInterface.send_message chat_id
    (utf8 "🔄 Запускаю команду экспертов..." ++ TelegramInterface.nl ++ TelegramInterface.nl
     ++ utf8 "Вы увидите полный процесс решения задачи в реальном времени.")
    system_role ;;;
  r <- SessionManager.run_task a_initiate_chat session text ;;
  if r.1 then
    TelegramInterface.send_message chat_id
      (utf8 "✅ Работа команды экспертов завершена успешно!") system_role ;;;
    ret tt
  else
    TelegramInterface.send_message chat_id
      (utf8 "⚠️ Диалог завершился без TERMINATE. Возможно, задача не была полностью решена.")
      system_role ;;;
    ret tt.

(** The [except Exception as e] block of [handle_message]. *)
Definition report_error (chat_id : Z) (e : exn) : M world unit :=
  TelegramInterface.send_message chat_id
    (utf8 "❌ Критическая ошибка: " ++ exn_msg e ++ TelegramInterface.nl ++ TelegramInterface.nl
     ++ utf8 "Пожалуйста, попробуйте позже или упростите задачу.")
    system_role ;;;
  ret tt.

(** [handle_message] *)
Definition handle_message (update : Update) (context : Context) : M world unit :=
  match message update with
  | None => ret tt
  | Some msg =>
    match text msg with
    | None => ret tt
    | Some raw =>
      if is_empty raw then ret tt
      else
        let chat_id := effective_chat_id update in
        let text := strip raw in
        if is_empty text then ret tt
        else
          session <- SessionManager.get_session chat_id ;;
          w <- get ;;
          if is_busy (heap w session) then
            reply_text update wait_notice None
          else
            try_finally
              (try_except (run_and_report session chat_id text context)
                          is_Exception (report_error chat_id))
              (SessionManager.set_is_busy session false)
    end
  end.

End Handlers.

End Handlers.

(* ===================================================================== *)
(** * The classification carried out by [_handle_message] *)
(* ===================================================================== *)

Module Classifier.

Import AgentSystem.

(** The three ways [_handle_message] treats a message text. *)
Inductive classification :=
| Service
| Termination (payload : str)
| Content (payload : str).

(** The test of line 310 of [core/agent_system.py]: the signatures of a
    service message. *)
Definition is_service (content : str) : bool :=
  contains (utf8 "Next speaker:") content
  || contains (utf8 "next speaker") (lower content)
  || contains (utf8 "##") (lower content).

(** The decision [_handle_message] takes on the text of a message
    (lines 302 to 345), as a value. *)
Definition classify (raw : str) : classification :=
  let content := strip raw in
  if is_empty content then Service
  else if is_service content then Service
  else if contains TERMINATE (upper content)
  then Termination (strip (replace TERMINATE [] content))
  else Content content.

(** The role a forwarded message is displayed with (lines 315 to 319). *)
Definition role_display (agent_name content : str) : str :=
  if contains (utf8 ">>>>>>>> EXECUTING CODE BLOCK") content
     || contains (utf8 "exitcode:") content
  then executor_role
  else dict_get ROLES agent_name (utf8 "🤖 " ++ agent_name).

(** The text [_handle_message] looks at: the content of the last message,
    the empty text when there is none. *)
Definition last_text (messages : list message) : str :=
  match last messages with
  | None => []
  | Some last_msg => default [] (content last_msg)
  end.

(** The final answer recorded for a payload. *)
Definition final_answer (payload : str) : str :=
  if is_empty payload then default_answer else payload.

Section Acting.
Context {ud : UnicodeData}.

(** What [_handle_message] does once the text is classified. *)
Definition act (c : classification) (role : str) : M (t * world) (bool * option str) :=
  match c with
  | Service => ret (false, None)
  | Termination payload =>
    modify (set_termination_detected true) ;;;
    tg_send (final_answer payload) final_role ;;;
    modify (set_last_message (final_answer payload)) ;;;
    ret (true, None)
  | Content payload =>
    tg_send payload role ;;;
    ret (false, None)
  end.

(** The texts handed to the reply functions in the course of a run of the
    library, in order. *)
Fixpoint heard (c : chat) (s : t * world) : list str :=
  match c with
  | Reply agent_name messages k =>
    last_text messages ::
    match _handle_message messages agent_name s with
    | (r, s') => heard (k r) s'
    end
  | _ => []
  end.

End Acting.

(** ** The payload in the words of the specification

    An occurrence of the token in any letter case is a stretch of the
    text that upper-cases to the token. *)
Definition ci_at (tok s : str) : bool :=
  bool_decide (upper (take (length tok) s) = tok).

(** The text with every such occurrence removed, scanning from the left. *)
Fixpoint remove_ci_from (tok : str) (skip : nat) (s : str) : str :=
  match s with
  | [] => []
  | c :: s' =>
    match skip with
    | S k => remove_ci_from tok k s'
    | O =>
      if ci_at tok s
      then remove_ci_from tok (pred (length tok)) s'
      else c :: remove_ci_from tok O s'
    end
  end.

(** The payload of a termination message as the specification words it. *)
Definition spec_payload (raw : str) : str :=
  strip (remove_ci_from TERMINATE O raw).

(** Every occurrence of the token in [s], in whatever letter case, is
    written in capitals. *)
Definition capitals_only (s : str) : Prop :=
  forall i, ci_at TERMINATE (drop i s) = true -> startswith TERMINATE (drop i s) = true.

(** The same, decided position by position. *)
Fixpoint capitals_onlyb (s : str) : bool :=
  implb (ci_at TERMINATE s) (startswith TERMINATE s)
  && match s with [] => true | _ :: s' => capitals_onlyb s' end.

(** A text that [_handle_message] does not take for a final answer. *)
Definition not_termination (text : str) : Prop :=
  forall payload, classify text <> Termination payload.

(** ** The service signatures, in words

    [tok] occurs in [s]; and [tok] occurs in [s] in some letter case: a
    stretch of [s] lower-cases to [tok]. *)
Definition occurs (tok s : str) : Prop :=
  exists pre post, s = pre ++ tok ++ post.

Definition occurs_ci (tok s : str) : Prop :=
  exists pre mid post, s = pre ++ mid ++ post /\ lower mid = tok.

(** What the test of line 310 comes to: the text contains [next speaker]
    in some letter case, or two number signs in a row, anywhere. *)
Definition service_signature (s : str) : Prop :=
  occurs_ci (utf8 "next speaker") s \/ occurs (utf8 "##") s.

(** ** The service signatures in the words of the specification

    The specification names two signatures: an explicit
    turn-announcement line and a pure routing marker.  They are read
    here as widely as the words allow.  A line announces a turn when,
    trimmed, it begins with [next speaker] in whatever letter case (the
    library prints [Next speaker: coder]); a line is a routing marker
    when, trimmed, it begins with [##]; a text matches when one of its
    lines does.  A narrower reading (the whole text is one such line)
    matches fewer texts still. *)
Fixpoint split_lines (s : str) : list str :=
  match s with
  | [] => [[]]
  | c :: s' =>
    if c =? 10 then [] :: split_lines s'
    else match split_lines s' with
         | [] => [[c]]
         | line :: rest => (c :: line) :: rest
         end
  end.

Definition spec_turn_announcement (line : str) : bool :=
  startswith (utf8 "next speaker") (lower (strip line)).

Definition spec_routing_marker (line : str) : bool :=
  startswith (utf8 "##") (strip line).

Definition spec_signature (text : str) : bool :=
  existsb (fun line => spec_turn_announcement line || spec_routing_marker line)
          (split_lines text).

End Classifier.

Import AgentSystem Classifier.

(* ===================================================================== *)
(** * [config.py]: validation *)
(* ===================================================================== *)

Module Config.

(** The settings [validate] looks at, as [_init] has stored them. *)
Record t := Mk {
  TELEGRAM_TOKEN : str;
  YANDEX_API_KEY : str;
  YANDEX_FOLDER_ID : str
}.

(** [sep.join(parts)] *)
Fixpoint join (sep : str) (parts : list str) : str :=
  match parts with
  | [] => []
  | [p] => p
  | p :: rest => p ++ sep ++ join sep rest
  end.

(** [Config.validate]: [None] when the settings are complete, the
    [ValueError] raised otherwise. *)
Definition validate (self : t) : result unit :=
  let errors := [] in
  let errors :=
    if is_empty (TELEGRAM_TOKEN self)
    then errors ++ [utf8 "TELEGRAM_TOKEN отсутствует"] else errors in
  let errors :=
    if is_empty (YANDEX_API_KEY self)
    then errors ++ [utf8 "YANDEX_API_KEY отсутствует"] else errors in
  let errors :=
    if is_empty (YANDEX_FOLDER_ID self)
    then errors ++ [utf8 "YANDEX_FOLDER_ID отсутствует"] else errors in
  match errors with
  | [] => inl tt
  | _ => inr (Exn ValueError (utf8 "Ошибки конфигурации: " ++ join (utf8 ", ") errors))
  end.

End Config.

(* ===================================================================== *)
(** * Conditions on worlds and on the library *)
(* ===================================================================== *)

Module Invariants.

(** Every entry of the session dictionary refers to an allocated object
    that carries the chat id it is registered under. *)
Definition registered (w : world) : Prop :=
  forall k r, sessions w !! k = Some r ->
              (r < next w)%nat /\ Env.chat_id (heap w r) = k.

(** A transport whose requests fail with Telegram errors only. *)
Definition tame_outcome (o : option exn) : Prop :=
  match o with
  | None => True
  | Some e => is_TelegramError e = true
  end.

Definition tame (w : world) : Prop := Forall tame_outcome (net w).

(** A library that raises exceptions of class [Exception] only. *)
Fixpoint polite (c : AgentSystem.chat) : Prop :=
  match c with
  | AgentSystem.Return => True
  | AgentSystem.Raise e => is_Exception e = true
  | AgentSystem.Reply _ _ k => forall r, polite (k r)
  end.

(** The requests a computation has added to the outbox of [w]. *)
Definition added (w w' : world) : list (api_call * option exn) :=
  drop (length (outbox w)) (outbox w').

(** The chat a request is addressed to. *)
Definition call_chat (c : api_call) : Z :=
  match c with
  | SendMessage chat _ _ => chat
  | ReplyText chat _ _ => chat
  end.

(** A text has a tag left when [<[^>]+>] matches somewhere in it. *)
Definition tag_free (s : str) : Prop :=
  forall i, TelegramInterface.match_tag (drop i s) = None.

(** The Markdown fence. *)
Definition fence : str := utf8 "```".

(** The first lines of a formatted message. *)
Definition header (role : str) : str :=
  utf8 "<b>" ++ role ++ utf8 "</b>" ++ TelegramInterface.nl ++ TelegramInterface.nl.

(** A text that [_handle_message] takes for a final answer. *)
Definition is_termination (text : str) : Prop :=
  exists payload, Classifier.classify text = Classifier.Termination payload.

(** A computation that leaves the dictionary and the allocation as they
    are, changes no object but [session], and keeps the chat id of that
    one. *)
Definition touches_only {A} (session : nat) (m : M world A) : Prop :=
  forall w,
    sessions (m w).2 = sessions w /\
    next (m w).2 = next w /\
    (forall r, r <> session -> heap (m w).2 r = heap w r) /\
    Env.chat_id (heap (m w).2 session) = Env.chat_id (heap w session).

(** On a tame transport: a computation that raises exceptions of class
    [Exception] only, and one that does not raise at all. *)
Definition gentle {A} (m : M world A) : Prop :=
  forall w, tame w ->
    tame (m w).2 /\
    match (m w).1 with inl _ => True | inr e => is_Exception e = true end.

Definition calm {A} (m : M world A) : Prop :=
  forall w, tame w -> tame (m w).2 /\ exists a, (m w).1 = inl a.

(** An update that [handle_message] passes over. *)
Definition nothing_to_do (update : Handlers.Update) : Prop :=
  match Handlers.message update with
  | None => True
  | Some m =>
    match Handlers.text m with
    | None => True
    | Some raw => is_empty (strip raw) = true
    end
  end.

(** The gate of the chat of an update is free. *)
Definition gate_free (update : Handlers.Update) (w : world) : Prop :=
  forall session,
    sessions w !! Handlers.effective_chat_id update = Some session ->
    is_busy (heap w session) = false.

(** An agent system with the flag set has a final answer recorded. *)
Definition answered (a : AgentSystem.t) : Prop :=
  termination_detected a = true -> is_empty (strip (last_message a)) = false.

(** No session of the dictionary is busy. *)
Definition idle (w : world) : Prop :=
  forall k r, sessions w !! k = Some r -> is_busy (heap w r) = false.

End Invariants.

Import Invariants.

(** ** Inputs for the examples *)

(** The ASCII character classes, an instance of the runtime's tables to
    evaluate examples with. *)
Definition ascii_classes : UnicodeData := {|
  re_digit c := (48 <=? c) && (c <=? 57);
  re_word c :=
    ((48 <=? c) && (c <=? 57)) || ((65 <=? c) && (c <=? 90))
    || ((97 <=? c) && (c <=? 122)) || (c =? 95)
|}.

(** A world with nothing in it and a transport that delivers. *)
Definition empty_world : world :=
  MkWorld ∅ (fun _ => MkSession 0 false None None) 0 [] [].

(** A world in which chat 7 has a task in flight: its session object,
    at reference 0, is busy. *)
Definition busy_world : world :=
  MkWorld {[ 7%Z := 0%nat ]}
          (fun _ => MkSession 7 true (Some (BotObj 0)) (Some (LoopObj 0)))
          1 [] [].

(** A further task for chat 7. *)
Definition second_task : Handlers.Update :=
  Handlers.MkUpdate (Some (Handlers.MkMessage (Some (utf8 "and what is 3+3")))) 7.

Definition a_context : Handlers.Context := Handlers.MkContext (BotObj 0) (LoopObj 0).

(** An update of chat 7 that carries no message (an edited message, say). *)
Definition edited_update : Handlers.Update := Handlers.MkUpdate None 7.

(** A run of the library in which three turns give service messages
    only. *)
Definition noise_only (task : str) : chat :=
  Reply (utf8 "manager") [Msg (Some (utf8 "Next speaker: analyst"))] (fun _ =>
  Reply (utf8 "analyst") [Msg (Some (utf8 "## routing"))] (fun _ =>
  Reply (utf8 "coder") [Msg (Some (utf8 "   "))] (fun _ => Return))).

(* ===================================================================== *)
(** * Properties *)
(* ===================================================================== *)

(** ** The primitives on examples *)

Example strip_example : strip (utf8 "  done TERMINATE ") = utf8 "done TERMINATE".
Proof. reflexivity. Qed.

Example strip_unicode_example : strip (160 :: 8195 :: utf8 "ok" ++ [12288; 10]) = utf8 "ok".
Proof. reflexivity. Qed.

Example replace_example :
  replace (utf8 "TERMINATE") [] (utf8 "aTERMINATEbTERMINATETERMINATEc terminate")
  = utf8 "abc terminate".
Proof. reflexivity. Qed.

Example upper_example : upper (utf8 "Terminate now") = utf8 "TERMINATE NOW".
Proof. reflexivity. Qed.

Example tags_example :
  TelegramInterface.re_sub TelegramInterface.match_tag []
    (utf8 "a<b>c</b> <> < x <<i>> d<e")
  = utf8 "ac <> > d<e".
Proof. reflexivity. Qed.

Example format_example :
  @TelegramInterface._format_message ascii_classes
    (utf8 " >>>>>>>> EXECUTING CODE BLOCK 12 (inferred language is python)... ")
    (utf8 "Executor")
  = utf8 "<b>Executor</b>" ++ [10; 10] ++ utf8 "💻 <b>Выполнение кода</b>".
Proof. reflexivity. Qed.

Example service_example :
  is_service (utf8 "NEXT SPEAKER: coder") = true /\
  is_service (utf8 "see ## below") = true /\
  is_service (utf8 "the next step") = false.
Proof. repeat split. Qed.

Example split_lines_example :
  split_lines (utf8 "Next speaker: coder" ++ [10; 10] ++ utf8 " ## coder")
  = [utf8 "Next speaker: coder"; []; utf8 " ## coder"].
Proof. reflexivity. Qed.

Example spec_signature_example :
  spec_signature (utf8 "Next speaker: coder") = true /\
  spec_signature (utf8 "ok" ++ [10] ++ utf8 "  NEXT SPEAKER: analyst") = true /\
  spec_signature (utf8 "## coder") = true /\
  spec_signature (utf8 "The plan has three steps.") = false.
Proof. repeat split. Qed.

(** ** The handler factors through the classification *)

Section HandlerFacts.
Context {ud : UnicodeData}.

Lemma handle_message_act messages agent_name :
  _handle_message messages agent_name
  = act (classify (last_text messages))
        (role_display agent_name (strip (last_text messages))).
Proof.
  unfold _handle_message, classify, last_text.
  destruct (last messages) as [m|]; [|reflexivity].
  set (c := strip (default [] (content m))).
  destruct (is_empty c) eqn:He; [reflexivity|].
  unfold is_service.
  destruct (_ || _ || _) eqn:Hs; [reflexivity|].
  destruct (contains TERMINATE (upper c)) eqn:Ht.
  - simpl. unfold final_answer.
    destruct (is_empty (strip (replace TERMINATE [] c))); reflexivity.
  - reflexivity.
Qed.

End HandlerFacts.

(** ** Facts about the text primitives *)

Section TextFacts.

Lemma lstrip_spaces ws s : spaces ws -> lstrip (ws ++ s) = lstrip s.
Proof.
  induction 1 as [|c ws Hc _ IH]; simpl; [reflexivity|].
  rewrite Hc. exact IH.
Qed.

Lemma lstrip_split s : exists ws, spaces ws /\ s = ws ++ lstrip s.
Proof.
  induction s as [|c s [ws [Hws Hs]]]; simpl.
  - exists []. split; [constructor|reflexivity].
  - destruct (is_space c) eqn:Hc.
    + exists (c :: ws). split; [constructor; assumption|].
      simpl. f_equal. exact Hs.
    + exists []. split; [constructor|reflexivity].
Qed.

Lemma lstrip_all_spaces ws : spaces ws -> lstrip ws = [].
Proof.
  intros H. rewrite <- (app_nil_r ws). rewrite lstrip_spaces; [reflexivity|assumption].
Qed.

Lemma spaces_rev ws : spaces ws -> spaces (rev ws).
Proof. intros H. apply List.Forall_rev, H. Qed.

Lemma rstrip_spaces s ws : spaces ws -> rstrip (s ++ ws) = rstrip s.
Proof.
  intros H. unfold rstrip. rewrite rev_app_distr.
  rewrite lstrip_spaces; [reflexivity|]. apply spaces_rev, H.
Qed.

Lemma rstrip_split s : exists ws, spaces ws /\ s = rstrip s ++ ws.
Proof.
  destruct (lstrip_split (rev s)) as [ws [Hws Hs]].
  exists (rev ws). split; [apply spaces_rev, Hws|].
  unfold rstrip. rewrite <- rev_app_distr, <- Hs, rev_involutive. reflexivity.
Qed.

Lemma rstrip_all_spaces ws : spaces ws -> rstrip ws = [].
Proof.
  intros H. unfold rstrip. rewrite lstrip_all_spaces; [reflexivity|apply spaces_rev, H].
Qed.

Lemma strip_split raw :
  exists ws1 ws2, spaces ws1 /\ spaces ws2 /\ raw = ws1 ++ strip raw ++ ws2.
Proof.
  destruct (lstrip_split raw) as [ws1 [H1 E1]].
  destruct (rstrip_split (lstrip raw)) as [ws2 [H2 E2]].
  exists ws1, ws2. split; [assumption|]. split; [assumption|].
  unfold strip. rewrite <- E2. exact E1.
Qed.

Lemma strip_lstrip_app y ws : spaces ws -> rstrip (lstrip (y ++ ws)) = rstrip (lstrip y).
Proof.
  intros H. induction y as [|c y IH]; simpl.
  - rewrite lstrip_all_spaces; [reflexivity|assumption].
  - destruct (is_space c); [exact IH|].
    change (c :: y ++ ws) with ((c :: y) ++ ws).
    apply rstrip_spaces, H.
Qed.

Lemma strip_surround ws1 y ws2 :
  spaces ws1 -> spaces ws2 -> strip (ws1 ++ y ++ ws2) = strip y.
Proof.
  intros H1 H2. unfold strip. rewrite lstrip_spaces by assumption.
  apply strip_lstrip_app, H2.
Qed.

Lemma strip_idempotent s : strip (strip s) = strip s.
Proof.
  destruct (strip_split s) as [ws1 [ws2 [H1 [H2 E]]]].
  rewrite E at 2. rewrite strip_surround by assumption. reflexivity.
Qed.

Lemma startswith_length p s : startswith p s = true -> (length p <= length s)%nat.
Proof.
  revert s. induction p as [|a p IH]; intros [|b s]; simpl; try lia; try discriminate.
  intros H. apply andb_true_iff in H as [_ H]. apply IH in H. lia.
Qed.

Lemma startswith_app p s : startswith p (p ++ s) = true.
Proof.
  induction p as [|a p IH]; simpl; [reflexivity|].
  rewrite N.eqb_refl. exact IH.
Qed.

Lemma startswith_take p s : startswith p s = true -> take (length p) s = p.
Proof.
  revert s. induction p as [|a p IH]; intros [|b s]; simpl; try discriminate; try reflexivity.
  intros H. apply andb_true_iff in H as [Hab H].
  apply N.eqb_eq in Hab. subst. f_equal. apply IH, H.
Qed.

Lemma startswith_spaces_tail p s ws :
  solid p -> spaces ws -> startswith p (s ++ ws) = startswith p s.
Proof.
  intros Hp Hws. revert s. induction Hp as [|a p Ha _ IH]; intros s.
  - destruct s; destruct ws; reflexivity.
  - destruct s as [|b s]; simpl.
    + destruct Hws as [|c ws Hc _]; simpl; [reflexivity|].
      destruct (N.eqb_spec a c); [congruence|reflexivity].
    + rewrite IH. reflexivity.
Qed.

Lemma startswith_space_head a p c s :
  is_space a = false -> is_space c = true -> startswith (a :: p) (c :: s) = false.
Proof.
  intros Ha Hc. simpl. destruct (N.eqb_spec a c); [congruence|reflexivity].
Qed.

Lemma replace_from_scan old new c s :
  replace_from old new O (c :: s)
  = if startswith old (c :: s)
    then new ++ replace_from old new (pred (length old)) s
    else c :: replace_from old new O s.
Proof. reflexivity. Qed.

Lemma replace_from_skip old new k c s :
  replace_from old new (S k) (c :: s) = replace_from old new k s.
Proof. reflexivity. Qed.

(** Replacing a token without whitespace commutes with the whitespace
    around the text. *)
Lemma replace_from_spaces_head a p new ws s :
  is_space a = false -> spaces ws ->
  replace_from (a :: p) new O (ws ++ s) = ws ++ replace_from (a :: p) new O s.
Proof.
  intros Ha. induction 1 as [|c ws Hc _ IH]; [reflexivity|].
  change ((c :: ws) ++ s) with (c :: (ws ++ s)).
  rewrite replace_from_scan, (startswith_space_head a p c _ Ha Hc), IH.
  reflexivity.
Qed.

Lemma replace_from_spaces_tail a p new ws :
  solid (a :: p) -> spaces ws ->
  forall s k, (k <= length s)%nat ->
  replace_from (a :: p) new k (s ++ ws) = replace_from (a :: p) new k s ++ ws.
Proof.
  intros Hp Hws. induction s as [|c s IH]; intros k Hk.
  - simpl in Hk. assert (k = O) by lia. subst k. simpl.
    rewrite <- (app_nil_r ws) at 1.
    rewrite replace_from_spaces_head; [|by inversion Hp|assumption].
    rewrite app_nil_r. reflexivity.
  - change ((c :: s) ++ ws) with (c :: (s ++ ws)).
    destruct k as [|k].
    + rewrite !replace_from_scan.
      change (c :: s ++ ws) with ((c :: s) ++ ws).
      rewrite (startswith_spaces_tail (a :: p) (c :: s) ws Hp Hws).
      destruct (startswith (a :: p) (c :: s)) eqn:Hst.
      * apply startswith_length in Hst. simpl in Hst.
        rewrite IH by (simpl; lia). rewrite app_assoc. reflexivity.
      * rewrite IH by lia. reflexivity.
    + rewrite !replace_from_skip. apply IH. simpl in Hk. lia.
Qed.

Lemma strip_replace_strip a p new raw :
  solid (a :: p) ->
  strip (replace (a :: p) new (strip raw)) = strip (replace (a :: p) new raw).
Proof.
  intros Hp. destruct (strip_split raw) as [ws1 [ws2 [H1 [H2 E]]]].
  rewrite E at 2. unfold replace.
  rewrite replace_from_spaces_head; [|by inversion Hp|assumption].
  rewrite replace_from_spaces_tail by (assumption || lia).
  rewrite strip_surround by assumption. reflexivity.
Qed.

End TextFacts.

(** ** Facts about case mapping and the token *)

Section CaseFacts.

Ltac bool_to_prop :=
  repeat match goal with
  | H : _ && _ = true |- _ => apply andb_true_iff in H as [? ?]
  | H : _ || _ = true |- _ => apply orb_true_iff in H as [?|?]
  | H : _ && _ = false |- _ => apply andb_false_iff in H
  | H : _ || _ = false |- _ => apply orb_false_iff in H as [? ?]
  | H : (_ <=? _) = true |- _ => apply N.leb_le in H
  | H : (_ <=? _) = false |- _ => apply N.leb_gt in H
  | H : (_ =? _) = true |- _ => apply N.eqb_eq in H
  | H : (_ =? _) = false |- _ => apply N.eqb_neq in H
  end.

Lemma upper_char_space c : is_space c = true -> upper_char c = [c].
Proof.
  intros H. unfold upper_char.
  repeat (case_match; [exfalso; unfold is_space in H; bool_to_prop; lia|]).
  reflexivity.
Qed.

Lemma upper_spaces ws : spaces ws -> upper ws = ws.
Proof.
  induction 1 as [|c ws Hc _ IH]; [reflexivity|].
  unfold upper in *. simpl. rewrite IH, upper_char_space by assumption. reflexivity.
Qed.

Lemma upper_app s1 s2 : upper (s1 ++ s2) = upper s1 ++ upper s2.
Proof. unfold upper. apply flat_map_app. Qed.

Lemma contains_spaces_head a p ws s :
  is_space a = false -> spaces ws -> contains (a :: p) (ws ++ s) = contains (a :: p) s.
Proof.
  intros Ha. induction 1 as [|c ws Hc _ IH]; [reflexivity|].
  change ((c :: ws) ++ s) with (c :: (ws ++ s)).
  cbn [contains]. rewrite (startswith_space_head a p c _ Ha Hc). exact IH.
Qed.

Lemma contains_spaces_tail a p s ws :
  solid (a :: p) -> spaces ws -> contains (a :: p) (s ++ ws) = contains (a :: p) s.
Proof.
  intros Hp Hws. induction s as [|c s IH].
  - simpl app. rewrite <- (app_nil_r ws).
    rewrite contains_spaces_head; [reflexivity|by inversion Hp|assumption].
  - change ((c :: s) ++ ws) with (c :: (s ++ ws)). cbn [contains].
    change (c :: s ++ ws) with ((c :: s) ++ ws).
    rewrite (startswith_spaces_tail (a :: p) (c :: s) ws Hp Hws), IH. reflexivity.
Qed.

Lemma contains_strip a p raw :
  solid (a :: p) -> contains (a :: p) (upper (strip raw)) = contains (a :: p) (upper raw).
Proof.
  intros Hp. destruct (strip_split raw) as [ws1 [ws2 [H1 [H2 E]]]].
  rewrite E at 2. rewrite !upper_app, (upper_spaces ws1), (upper_spaces ws2) by assumption.
  rewrite contains_spaces_head; [|by inversion Hp|assumption].
  apply eq_sym, contains_spaces_tail; assumption.
Qed.

Lemma TERMINATE_solid : solid TERMINATE.
Proof. repeat constructor. Qed.

Lemma TERMINATE_cons : TERMINATE = 84 :: [69; 82; 77; 73; 78; 65; 84; 69].
Proof. reflexivity. Qed.

Lemma ci_at_exact s : startswith TERMINATE s = true -> ci_at TERMINATE s = true.
Proof.
  intros H. apply startswith_take in H. unfold ci_at.
  apply bool_decide_eq_true. rewrite H. reflexivity.
Qed.

Lemma capitals_only_tail c s : capitals_only (c :: s) -> capitals_only s.
Proof. intros H i. apply (H (S i)). Qed.

Lemma remove_ci_capitals s :
  capitals_only s ->
  forall k, remove_ci_from TERMINATE k s = replace_from TERMINATE [] k s.
Proof.
  induction s as [|c s IH]; intros Hs k; [reflexivity|].
  specialize (IH (capitals_only_tail _ _ Hs)).
  destruct k as [|k]; cbn [remove_ci_from replace_from]; [|apply IH].
  pose proof (Hs O) as H0. simpl drop in H0.
  destruct (ci_at TERMINATE (c :: s)) eqn:Hci.
  - rewrite (H0 eq_refl). rewrite IH. reflexivity.
  - destruct (startswith TERMINATE (c :: s)) eqn:Hst.
    + apply ci_at_exact in Hst. congruence.
    + rewrite IH. reflexivity.
Qed.

End CaseFacts.

(** ** Termination messages *)

Lemma capitals_onlyb_sound s : capitals_onlyb s = true -> capitals_only s.
Proof.
  induction s as [|c s IH]; intros H i.
  - rewrite drop_nil. vm_compute. discriminate.
  - simpl in H. apply andb_true_iff in H as [H0 H].
    destruct i as [|i]; simpl drop.
    + intros Hci. rewrite Hci in H0. exact H0.
    + apply IH, H.
Qed.

Section Termination.
Context {ud : UnicodeData}.

Lemma tg_send_agent text role (a : AgentSystem.t) w :
  (tg_send text role (a, w)).2.1 = a.
Proof.
  unfold tg_send, bind, get, on_world. simpl.
  destruct (TelegramInterface.send_message _ _ _ w). reflexivity.
Qed.

Lemma act_termination payload role s r s' :
  act (Termination payload) role s = (inl r, s') ->
  r = (true, None) /\
  termination_detected s'.1 = true /\
  last_message s'.1 = final_answer payload.
Proof.
  destruct s as [a w]. unfold act, bind, modify, ret.
  pose proof (tg_send_agent (final_answer payload) final_role
                (Mk (chat_id a) true (last_message a)) w) as Hag.
  unfold set_termination_detected. simpl.
  destruct (tg_send _ _ _) as [[b|e] [a1 w1]]; simpl in *; intros H; [|discriminate].
  injection H as <- <-. subst a1. simpl. auto.
Qed.

(** C1, as amended.  Take a text whose trimmed form carries no service
    signature and whose upper-case form contains [TERMINATE].  It is
    classified [Termination]: a call of [_handle_message] on it that
    returns, returns the terminate flag, has set [termination_detected]
    and has recorded the payload as [last_message], or the canonical
    default answer when the payload is empty.  When every occurrence of
    the token in the text is written in capitals, the payload is the text
    with every occurrence in any letter case removed and the surrounding
    whitespace trimmed. *)
Theorem termination_classified raw :
  is_service (strip raw) = false ->
  contains TERMINATE (upper raw) = true ->
  (exists payload,
     classify raw = Termination payload /\
     forall messages agent_name s r s',
       last_text messages = raw ->
       _handle_message messages agent_name s = (inl r, s') ->
       r = (true, None) /\ termination_detected s'.1 = true /\
       last_message s'.1 = final_answer payload) /\
  (capitals_only raw -> classify raw = Termination (spec_payload raw)).
Proof.
  intros Hsvc Hin.
  assert (Hc : contains TERMINATE (upper (strip raw)) = true).
  { rewrite TERMINATE_cons, contains_strip, <- TERMINATE_cons; [exact Hin|].
    rewrite <- TERMINATE_cons. exact TERMINATE_solid. }
  assert (Hne : is_empty (strip raw) = false).
  { destruct (strip raw); [discriminate Hc|reflexivity]. }
  assert (Hcl : classify raw = Termination (strip (replace TERMINATE [] (strip raw)))).
  { unfold classify. rewrite Hne, Hsvc, Hc. reflexivity. }
  split.
  - eexists. split; [exact Hcl|].
    intros messages agent_name s r s' Hm Hrun.
    rewrite handle_message_act, Hm, Hcl in Hrun.
    eapply act_termination, Hrun.
  - intros Hcap. rewrite Hcl. f_equal. unfold spec_payload.
    rewrite remove_ci_capitals by assumption.
    rewrite TERMINATE_cons. apply strip_replace_strip.
    rewrite <- TERMINATE_cons. exact TERMINATE_solid.
Qed.

End Termination.

(** The text [done TERMINATE] has the payload [done]. *)
Lemma termination_classified_witness :
  let raw := utf8 "done TERMINATE" in
  is_service (strip raw) = false /\
  contains TERMINATE (upper raw) = true /\
  capitals_only raw /\
  classify raw = Termination (spec_payload raw) /\
  spec_payload raw = utf8 "done".
Proof.
  intros raw.
  assert (Hcap : capitals_only raw) by (apply capitals_onlyb_sound; reflexivity).
  destruct (@termination_classified ascii_classes raw eq_refl eq_refl) as [_ H].
  split; [reflexivity|]. split; [reflexivity|]. split; [exact Hcap|].
  split; [exact (H Hcap)|reflexivity].
Defined.

(** An empty payload: the canonical default answer is recorded. *)
Example default_answer_recorded :
  let out := @_handle_message ascii_classes [Msg (Some (utf8 "  TERMINATE  "))]
               (utf8 "analyst") (init 5, empty_world) in
  classify (utf8 "  TERMINATE  ") = Termination [] /\
  out.1 = inl (true, None) /\
  termination_detected out.2.1 = true /\
  last_message out.2.1 = default_answer.
Proof. vm_compute. auto. Qed.

(** C1 as stated fails.  The text [terminate] between blanks contains the
    token in lower case, yet its payload is [terminate] and not the empty
    text, so that [terminate] is recorded instead of the default answer;
    and [## TERMINATE] contains the token but is a service message. *)
Lemma termination_payload_counterexample :
  let raw := utf8 "  terminate  " in
  let out := @_handle_message ascii_classes [Msg (Some raw)] (utf8 "analyst")
               (init 5, empty_world) in
  (contains TERMINATE (upper raw) = true /\
   spec_payload raw = [] /\
   classify raw = Termination (utf8 "terminate") /\
   classify raw <> Termination (spec_payload raw) /\
   last_message out.2.1 = utf8 "terminate" /\
   last_message out.2.1 <> default_answer) /\
  (contains TERMINATE (upper (utf8 "## TERMINATE")) = true /\
   classify (utf8 "## TERMINATE") = Service).
Proof.
  vm_compute. repeat split; congruence.
Qed.

(** ** Content and service messages *)

Lemma startswith_occurs p s : startswith p s = true <-> exists post, s = p ++ post.
Proof.
  split.
  - revert s. induction p as [|a p IH]; intros s H; [exists s; reflexivity|].
    destruct s as [|b s]; [discriminate H|]. simpl in H.
    apply andb_true_iff in H as [Hab H]. apply N.eqb_eq in Hab. subst b.
    destruct (IH s H) as [post ->]. exists post. reflexivity.
  - intros [post ->]. apply startswith_app.
Qed.

Lemma contains_occurs p s : contains p s = true <-> occurs p s.
Proof.
  unfold occurs. induction s as [|c s IH]; cbn [contains].
  - rewrite orb_false_r, startswith_occurs. split.
    + intros [post H]. exists [], post. exact H.
    + intros [pre [post H]]. symmetry in H.
      apply app_eq_nil in H as [-> H]. exists post. symmetry. exact H.
  - rewrite orb_true_iff, startswith_occurs, IH. split.
    + intros [[post H]|[pre [post H]]].
      * exists [], post. exact H.
      * exists (c :: pre), post. rewrite H. reflexivity.
    + intros [[|c' pre] [post H]].
      * left. exists post. exact H.
      * right. injection H as _ H. exists pre, post. exact H.
Qed.

Lemma lower_app s1 s2 : lower (s1 ++ s2) = lower s1 ++ lower s2.
Proof. unfold lower. apply List.map_app. Qed.

Lemma contains_lower_occurs tok s : contains tok (lower s) = true <-> occurs_ci tok s.
Proof.
  rewrite contains_occurs. unfold occurs, occurs_ci. split.
  - intros [pre [post H]]. unfold lower in H.
    apply List.map_eq_app in H as [pre' [rest [-> [Hpre H]]]].
    apply List.map_eq_app in H as [mid [post' [-> [Hmid Hpost]]]].
    exists pre', mid, post'. split; [reflexivity|exact Hmid].
  - intros [pre [mid [post [-> Hmid]]]].
    exists (lower pre), (lower post). rewrite !lower_app, Hmid. reflexivity.
Qed.

Lemma lower_char_number_sign c : lower_char c = 35 -> c = 35.
Proof.
  unfold lower_char.
  destruct ((65 <=? c) && (c <=? 90)) eqn:H1.
  - apply andb_true_iff in H1 as [H1 H2]. apply N.leb_le in H1. lia.
  - destruct (N.eqb_spec c 8490); [discriminate|auto].
Qed.

Lemma number_signs_any_case s : occurs_ci (utf8 "##") s <-> occurs (utf8 "##") s.
Proof.
  unfold occurs, occurs_ci. split.
  - intros [pre [mid [post [-> Hmid]]]]. exists pre, post.
    destruct mid as [|a [|b [|c mid]]]; try discriminate Hmid.
    injection Hmid as Ha Hb.
    apply lower_char_number_sign in Ha, Hb. subst. reflexivity.
  - intros [pre [post ->]]. exists pre, (utf8 "##"), post. auto.
Qed.

Lemma announcement_any_case s :
  occurs (utf8 "Next speaker:") s -> occurs_ci (utf8 "next speaker") s.
Proof.
  intros [pre [post ->]].
  exists pre, (utf8 "Next speaker"), (utf8 ":" ++ post). auto.
Qed.

(** The test of line 310, in words. *)
Lemma is_service_signature s : is_service s = true <-> service_signature s.
Proof.
  unfold is_service, service_signature.
  rewrite !orb_true_iff, !contains_lower_occurs, contains_occurs, number_signs_any_case.
  pose proof (announcement_any_case s). tauto.
Qed.

Section Forwarding.
Context {ud : UnicodeData}.

(** C2, as amended.  Take a text that is not empty after trimming and
    whose upper-case form does not contain [TERMINATE].  The test of
    line 310 holds of its trimmed form exactly when that contains
    [next speaker] in some letter case or [##], anywhere in the text, and
    the text is classified [Service] exactly then: [_handle_message]
    returns the continue flag and leaves everything as it was, nothing is
    sent.  Otherwise the text is classified [Content] with the trimmed
    text as payload, and [_handle_message] does nothing but send that
    payload once to the sink under the display role and return the
    continue flag. *)
Theorem content_or_service raw :
  is_empty (strip raw) = false ->
  contains TERMINATE (upper raw) = false ->
  (is_service (strip raw) = true <-> service_signature (strip raw)) /\
  (classify raw = Service <-> is_service (strip raw) = true) /\
  (is_service (strip raw) = true ->
   forall messages agent_name s,
     last_text messages = raw ->
     _handle_message messages agent_name s = (inl (false, None), s)) /\
  (is_service (strip raw) = false ->
   classify raw = Content (strip raw) /\
   forall messages agent_name,
     last_text messages = raw ->
     _handle_message messages agent_name
     = (tg_send (strip raw) (role_display agent_name (strip raw)) ;;; ret (false, None))).
Proof.
  intros Hne Hno.
  assert (Hc : contains TERMINATE (upper (strip raw)) = false).
  { rewrite TERMINATE_cons, contains_strip, <- TERMINATE_cons; [exact Hno|].
    rewrite <- TERMINATE_cons. exact TERMINATE_solid. }
  split; [apply is_service_signature|].
  unfold classify. rewrite Hne, Hc.
  destruct (is_service (strip raw)) eqn:Hsvc.
  - split; [tauto|]. split; [|discriminate].
    intros _ messages agent_name s Hm.
    rewrite handle_message_act, Hm. unfold classify. rewrite Hne, Hsvc.
    reflexivity.
  - split; [split; discriminate|]. split; [discriminate|].
    intros _. split; [reflexivity|].
    intros messages agent_name Hm.
    rewrite handle_message_act, Hm. unfold classify. rewrite Hne, Hsvc, Hc.
    reflexivity.
Qed.

Lemma act_content payload role s r s' :
  act (Content payload) role s = (inl r, s') -> r = (false, None).
Proof.
  unfold act, bind, ret.
  destruct (tg_send payload role s) as [[b|e] s1]; intros [= <- _]; reflexivity.
Qed.

(** C3, as amended.  The classification made by [_handle_message], tag
    and payload, is a function of the text of the last message alone: two
    calls on the same text, for whatever agents and in whatever states,
    act on the same classification; when both return they return the same
    flag, and when that flag says to terminate they have recorded the same
    final answer.  (The calls themselves are not free of effects: see
    [act].) *)
Theorem classification_by_text messages1 messages2 name1 name2 :
  last_text messages1 = last_text messages2 ->
  (exists c,
     c = classify (last_text messages1) /\
     _handle_message messages1 name1
       = act c (role_display name1 (strip (last_text messages1))) /\
     _handle_message messages2 name2
       = act c (role_display name2 (strip (last_text messages1)))) /\
  (forall s1 s2 r1 r2 s1' s2',
     _handle_message messages1 name1 s1 = (inl r1, s1') ->
     _handle_message messages2 name2 s2 = (inl r2, s2') ->
     r1 = r2 /\
     (r1.1 = true ->
      termination_detected s1'.1 = true /\ termination_detected s2'.1 = true /\
      last_message s1'.1 = last_message s2'.1)).
Proof.
  intros H. split.
  - eexists. split; [reflexivity|].
    split; [apply handle_message_act|].
    rewrite H. apply handle_message_act.
  - intros s1 s2 r1 r2 s1' s2'. rewrite !handle_message_act, <- H.
    destruct (classify (last_text messages1)) as [|payload|payload].
    + intros [= <- _] [= <- _]. split; [reflexivity|discriminate].
    + intros H1 H2.
      apply act_termination in H1 as [-> [Ht1 Hm1]].
      apply act_termination in H2 as [-> [Ht2 Hm2]].
      split; [reflexivity|]. intros _. rewrite Hm1, Hm2. auto.
    + intros H1 H2. apply act_content in H1 as ->. apply act_content in H2 as ->.
      split; [reflexivity|discriminate].
Qed.

(** ** Runs of the library *)

Lemma act_keeps_agent c role a w :
  (forall payload, c <> Termination payload) ->
  (act c role (a, w)).2.1 = a.
Proof.
  intros Hc. destruct c as [|payload|payload]; simpl.
  - reflexivity.
  - destruct (Hc payload). reflexivity.
  - unfold bind. pose proof (tg_send_agent payload role a w) as H.
    destruct (tg_send payload role (a, w)) as [[b|e] [a1 w1]]; simpl in *; congruence.
Qed.

(** To the library, service and content messages look alike: the reply
    function hands back the same continue flag for both. *)
Lemma continue_flag_alike messages agent_name s r s' :
  not_termination (last_text messages) ->
  _handle_message messages agent_name s = (inl r, s') ->
  r = (false, None).
Proof.
  intros Hnt. rewrite handle_message_act.
  destruct (classify (last_text messages)) as [|payload|payload] eqn:Hc.
  - intros [= <- _]. reflexivity.
  - destruct (Hnt payload Hc).
  - apply act_content.
Qed.

Lemma converse_keeps_agent c :
  forall a w,
    Forall not_termination (heard c (a, w)) ->
    (converse c (a, w)).2.1 = a.
Proof.
  induction c as [| e | agent_name messages k IH]; intros a w Hall; try reflexivity.
  simpl in *. apply Forall_cons in Hall as [Hhd Htl].
  pose proof (act_keeps_agent (classify (last_text messages))
                (role_display agent_name (strip (last_text messages))) a w Hhd) as Hag.
  rewrite <- handle_message_act in Hag.
  destruct (_handle_message messages agent_name (a, w)) as [r [a1 w1]].
  simpl in Hag. subst a1. apply IH, Htl.
Qed.

Lemma converse_service_only c :
  forall s,
    Forall (fun text => classify text = Service) (heard c s) ->
    (converse c s).2 = s.
Proof.
  induction c as [| e | agent_name messages k IH]; intros s Hall; try reflexivity.
  simpl in *. apply Forall_cons in Hall as [Hhd Htl].
  rewrite handle_message_act, Hhd in *. simpl in *. apply IH, Htl.
Qed.

(** C7.  If the library's run completes and none of the texts handed to
    the reply functions is classified [Termination], [run_task] on a new
    agent system returns [False] with the empty text; if moreover all of
    them are classified [Service], the run leaves the world as it was:
    nothing is sent to the sink. *)
Theorem run_without_termination a_initiate_chat task chat_id w :
  let s0 := (init chat_id, w) in
  let c := a_initiate_chat task in
  Forall not_termination (heard c s0) ->
  (converse c s0).1 = inl tt ->
  (AgentSystem.run_task a_initiate_chat task s0).1 = inl (false, []) /\
  (Forall (fun text => classify text = Service) (heard c s0) ->
   (AgentSystem.run_task a_initiate_chat task s0).2 = s0).
Proof.
  intros s0 c Hall Hret.
  pose proof (converse_keeps_agent c (init chat_id) w Hall) as Hag.
  unfold AgentSystem.run_task, bind, try_except, get, ret. fold c. fold s0 in Hag |- *.
  destruct (converse c s0) as [[[]|e] [a1 w1]] eqn:Hrun; simpl in *; [|discriminate].
  subst a1. split; [reflexivity|].
  intros Hsvc. pose proof (converse_service_only c s0 Hsvc) as Hs.
  rewrite Hrun in Hs. exact Hs.
Qed.

End Forwarding.

Lemma content_or_service_witness :
  let raw := utf8 "  The plan has three steps.  " in
  is_empty (strip raw) = false /\
  contains TERMINATE (upper raw) = false /\
  is_service (strip raw) = false /\
  classify raw = Content (utf8 "The plan has three steps.").
Proof.
  intros raw.
  destruct (@content_or_service ascii_classes raw eq_refl eq_refl) as [_ [_ [_ H]]].
  destruct (H eq_refl) as [Hc _].
  split; [reflexivity|]. split; [reflexivity|]. split; [reflexivity|exact Hc].
Defined.

(** C2 as stated fails.  The two texts below are neither empty nor a
    final answer, and no line of them is a turn announcement or a routing
    marker, however widely that is read: the first has [##] in the middle
    of a sentence, the second speaks of [the next speaker].  Both are
    classified [Service] and not [Content]: [_handle_message] drops them,
    nothing reaches the sink. *)
Lemma service_signature_counterexample :
  let raw1 := utf8 "In C, a ## b pastes two tokens." in
  let raw2 := utf8 "Ask who the next speaker is." in
  let s := (init 5, empty_world) in
  (is_empty (strip raw1) = false /\
   contains TERMINATE (upper raw1) = false /\
   spec_signature raw1 = false /\
   classify raw1 = Service /\
   classify raw1 <> Content (strip raw1) /\
   @_handle_message ascii_classes [Msg (Some raw1)] (utf8 "coder") s
   = (inl (false, None), s)) /\
  (is_empty (strip raw2) = false /\
   contains TERMINATE (upper raw2) = false /\
   spec_signature raw2 = false /\
   classify raw2 = Service /\
   classify raw2 <> Content (strip raw2) /\
   @_handle_message ascii_classes [Msg (Some raw2)] (utf8 "analyst") s
   = (inl (false, None), s)).
Proof.
  intros raw1 raw2 s. split.
  - repeat (split; [reflexivity|]). split; [discriminate|reflexivity].
  - repeat (split; [reflexivity|]). split; [discriminate|reflexivity].
Qed.

(** A text of the same kind without the two signatures is forwarded: one
    request reaches the transport. *)
Example content_forwarded :
  let raw := utf8 "In C, a # b does not paste tokens." in
  let out := @_handle_message ascii_classes [Msg (Some raw)] (utf8 "coder")
               (init 5, empty_world) in
  classify raw = Content raw /\ out.1 = inl (false, None) /\
  length (outbox out.2.2) = 1%nat.
Proof. vm_compute. auto. Qed.

Lemma classification_by_text_witness :
  let messages1 := [Msg (Some (utf8 "4. TERMINATE"))] in
  let messages2 := [Msg None; Msg (Some (utf8 "4. TERMINATE"))] in
  last_text messages1 = last_text messages2 /\
  exists c,
    c = Termination (utf8 "4.") /\
    @_handle_message ascii_classes messages1 (utf8 "analyst")
      = @act ascii_classes c (role_display (utf8 "analyst") (utf8 "4. TERMINATE")) /\
    @_handle_message ascii_classes messages2 (utf8 "coder")
      = @act ascii_classes c (role_display (utf8 "coder") (utf8 "4. TERMINATE")).
Proof.
  intros messages1 messages2. split; [reflexivity|].
  exact (proj1 (@classification_by_text ascii_classes messages1 messages2
                  (utf8 "analyst") (utf8 "coder") eq_refl)).
Defined.

(** C3 as stated fails: handling a text is not free of effects.  On
    [done TERMINATE] the handler sets [termination_detected], records the
    answer and sends it; a second call on the same text sends it again. *)
Lemma classification_effects_counterexample :
  let s := (init 5, empty_world) in
  let handle := @_handle_message ascii_classes [Msg (Some (utf8 "done TERMINATE"))]
                  (utf8 "analyst") in
  termination_detected s.1 = false /\
  termination_detected (handle s).2.1 = true /\
  last_message (handle s).2.1 = utf8 "done" /\
  length (outbox s.2) = 0%nat /\
  length (outbox (handle s).2.2) = 1%nat /\
  length (outbox (handle (handle s).2).2.2) = 2%nat /\
  (handle s).2 <> s.
Proof.
  intros s handle. repeat (split; [reflexivity|]).
  intros H. apply (f_equal (fun x => termination_detected x.1)) in H.
  vm_compute in H. discriminate.
Qed.

Lemma run_without_termination_witness :
  let s0 := (init 5, empty_world) in
  Forall not_termination (@heard ascii_classes (noise_only [10]) s0) /\
  (@converse ascii_classes (noise_only [10]) s0).1 = inl tt /\
  Forall (fun text => classify text = Service) (@heard ascii_classes (noise_only [10]) s0) /\
  @AgentSystem.run_task ascii_classes noise_only [10] s0 = (inl (false, []), s0).
Proof.
  intros s0.
  assert (H1 : Forall not_termination (@heard ascii_classes (noise_only [10]) s0)).
  { repeat constructor; intros payload; vm_compute; discriminate. }
  assert (H2 : Forall (fun text => classify text = Service)
                 (@heard ascii_classes (noise_only [10]) s0)).
  { repeat constructor. }
  destruct (@run_without_termination ascii_classes noise_only [10] 5 empty_world
              H1 eq_refl) as [Hr Hs].
  split; [exact H1|]. split; [reflexivity|]. split; [exact H2|].
  specialize (Hs H2). fold s0 in Hr, Hs.
  destruct (@AgentSystem.run_task ascii_classes noise_only [10] s0) as [r s1].
  simpl in Hr, Hs. rewrite Hr, Hs. reflexivity.
Defined.

(** A run that ends on a final answer: the first reply handed over is
    [4. TERMINATE]. *)
Example run_with_final_answer :
  let out := @AgentSystem.run_task ascii_classes
               (fun _ => Reply (utf8 "analyst") [Msg (Some (utf8 "4. TERMINATE"))]
                           (fun _ => Return))
               (utf8 "what is 2+2") (init 5, empty_world) in
  out.1 = inl (true, utf8 "4.") /\ length (outbox out.2.2) = 1%nat.
Proof. vm_compute. auto. Qed.

(** ** The sink *)

Section Sink.
Context {ud : UnicodeData}.
Import TelegramInterface.

Lemma is_empty_strip text :
  is_empty text || is_empty (strip text) = is_empty (strip text).
Proof. destruct text; reflexivity. Qed.

(** C8, as amended.  [send_message] makes no request and returns [False]
    for a text that is empty or whitespace only.  Otherwise it requests
    the HTML-formatted message and returns [True] when that is delivered;
    when that request fails with a Telegram error it requests the plain
    message, the role followed by the text with its HTML tags removed and
    no parse mode, and returns [True] when this one is delivered and
    [False], without raising, when it fails with an exception of class
    [Exception]. *)
Theorem send_message_degrades chat text role w :
  let html := SendMessage chat (_format_message text role) (Some HTML) in
  let plain := SendMessage chat (role ++ nl ++ nl ++ re_sub match_tag [] text) None in
  let out := send_message chat text role w in
  (is_empty (strip text) = true -> out = (inl false, w)) /\
  (is_empty (strip text) = false ->
   (coming w 0 = None ->
    out.1 = inl true /\ outbox out.2 = outbox w ++ [(html, None)]) /\
   (forall e, coming w 0 = Some e -> is_TelegramError e = true ->
    (coming w 1 = None ->
     out.1 = inl true /\
     outbox out.2 = outbox w ++ [(html, Some e); (plain, None)]) /\
    (forall e2, coming w 1 = Some e2 -> is_Exception e2 = true ->
     out.1 = inl false /\
     outbox out.2 = outbox w ++ [(html, Some e); (plain, Some e2)]))).
Proof.
  intros html plain out. subst out. unfold send_message.
  rewrite is_empty_strip.
  split; intros Hne; rewrite Hne; [reflexivity|].
  unfold coming, try_except, bind, request, ret.
  destruct w as [ss hp nx nt ob]; simpl.
  destruct nt as [|[e|] rest]; simpl.
  - split; [auto|discriminate].
  - split; [discriminate|]. intros e' [= <-] Hte. rewrite Hte.
    destruct rest as [|[e2|] rest]; simpl.
    + rewrite <- app_assoc. split; [auto|discriminate].
    + split; [discriminate|]. intros e2' [= <-] Hex. rewrite Hex.
      rewrite <- app_assoc. auto.
    + rewrite <- app_assoc. split; [auto|discriminate].
  - split; [auto|discriminate].
Qed.

End Sink.

Lemma send_message_degrades_witness :
  let w := MkWorld ∅ (heap empty_world) 0
             [Some (Exn TelegramError (utf8 "can't parse entities"));
              Some (Exn OtherException (utf8 "connection reset"))] [] in
  let out := @TelegramInterface.send_message ascii_classes 7 (utf8 "a <i>b</i>")
               (utf8 "Analyst") w in
  out.1 = inl false /\
  outbox out.2
  = [(SendMessage 7 (utf8 "<b>Analyst</b>" ++ [10; 10] ++ utf8 "a <i>b</i>") (Some HTML),
      Some (Exn TelegramError (utf8 "can't parse entities")));
     (SendMessage 7 (utf8 "Analyst" ++ [10; 10] ++ utf8 "a b") None,
      Some (Exn OtherException (utf8 "connection reset")))].
Proof.
  intros w out.
  destruct (@send_message_degrades ascii_classes 7 (utf8 "a <i>b</i>") (utf8 "Analyst") w)
    as [_ H].
  destruct (H eq_refl) as [_ H1].
  destruct (H1 _ eq_refl eq_refl) as [_ H2].
  exact (H2 _ eq_refl eq_refl).
Defined.

(** C8 as stated fails: an exception of the HTML request that is not a
    Telegram error is not caught and leaves [send_message]; so does an
    exception of the plain request that [except Exception] lets through. *)
Lemma send_message_raises_counterexample :
  let boom := Exn OtherException (utf8 "connection reset") in
  let parse := Exn TelegramError (utf8 "can't parse entities") in
  let stop := Exn BaseException (utf8 "cancelled") in
  (@TelegramInterface.send_message ascii_classes 7 (utf8 "hello") (utf8 "Analyst")
     (MkWorld ∅ (heap empty_world) 0 [Some boom] [])).1 = inr boom /\
  (@TelegramInterface.send_message ascii_classes 7 (utf8 "hello") (utf8 "Analyst")
     (MkWorld ∅ (heap empty_world) 0 [Some parse; Some stop] [])).1 = inr stop.
Proof. split; reflexivity. Qed.

(** ** The session gate *)

Section Gate.
Context {ud : UnicodeData}.
Import SessionManager Handlers.

Lemma keeps_registry_ret {A} (a : A) : keeps_registry (ret a).
Proof. intros w. reflexivity. Qed.

Lemma keeps_registry_bind {A B} (m : M world A) (k : A -> M world B) :
  keeps_registry m -> (forall a, keeps_registry (k a)) -> keeps_registry (bind m k).
Proof.
  intros Hm Hk w. unfold bind. specialize (Hm w).
  destruct (m w) as [[a|e] w1]; simpl in *; [|exact Hm].
  rewrite (Hk a w1). exact Hm.
Qed.

Lemma keeps_registry_try_except {A} (m : M world A) catches h :
  keeps_registry m -> (forall e, keeps_registry (h e)) ->
  keeps_registry (try_except m catches h).
Proof.
  intros Hm Hh w. unfold try_except. specialize (Hm w).
  destruct (m w) as [[a|e] w1]; simpl in *; [exact Hm|].
  destruct (catches e); [|exact Hm].
  rewrite (Hh e w1). exact Hm.
Qed.

Lemma keeps_registry_request c : keeps_registry (request c).
Proof.
  intros w. unfold request. destruct (net w) as [|[e|] rest]; reflexivity.
Qed.

Lemma keeps_registry_send_message chat text role :
  keeps_registry (TelegramInterface.send_message chat text role).
Proof.
  unfold TelegramInterface.send_message.
  destruct (_ || _); [apply keeps_registry_ret|].
  apply keeps_registry_try_except; [|intros e; apply keeps_registry_try_except].
  - apply keeps_registry_bind; [apply keeps_registry_request|].
    intros _. apply keeps_registry_ret.
  - apply keeps_registry_bind; [apply keeps_registry_request|].
    intros _. apply keeps_registry_ret.
  - intros _. apply keeps_registry_ret.
Qed.

Lemma keeps_registry_set_is_busy session b : keeps_registry (set_is_busy session b).
Proof. intros w. reflexivity. Qed.

Lemma keeps_registry_set_context session b l : keeps_registry (set_context session b l).
Proof. intros w. reflexivity. Qed.

Lemma handler_keeps_registry messages agent_name s :
  sessions (_handle_message messages agent_name s).2.2 = sessions s.2.
Proof.
  rewrite handle_message_act. destruct s as [a w].
  assert (Hsend : forall text role a0 w0,
             sessions (tg_send text role (a0, w0)).2.2 = sessions w0).
  { intros text role a0 w0. unfold tg_send, bind, get, on_world. simpl.
    pose proof (keeps_registry_send_message (chat_id a0) text role w0) as H.
    destruct (TelegramInterface.send_message _ _ _ w0). exact H. }
  destruct (classify (last_text messages)) as [|payload|payload]; simpl.
  - reflexivity.
  - unfold bind, modify, ret, set_termination_detected, set_last_message. simpl.
    specialize (Hsend (final_answer payload) final_role
                  (Mk (chat_id a) true (last_message a)) w).
    destruct (tg_send _ _ _) as [[b|e] [a1 w1]]; exact Hsend.
  - unfold bind, ret. specialize (Hsend payload
      (role_display agent_name (strip (last_text messages))) a w).
    destruct (tg_send _ _ _) as [[b|e] [a1 w1]]; exact Hsend.
Qed.

Lemma converse_keeps_registry c :
  forall s, sessions (converse c s).2.2 = sessions s.2.
Proof.
  induction c as [| e | agent_name messages k IH]; intros s; try reflexivity.
  simpl. pose proof (handler_keeps_registry messages agent_name s) as H.
  destruct (_handle_message messages agent_name s) as [r s1].
  rewrite IH. exact H.
Qed.

Lemma keeps_registry_run_task a_initiate_chat session task :
  keeps_registry (SessionManager.run_task a_initiate_chat session task).
Proof.
  intros w. unfold SessionManager.run_task.
  destruct (bot (heap w session)); [|reflexivity].
  destruct (loop (heap w session)); [|reflexivity].
  unfold AgentSystem.run_task, bind, try_except, get, ret, raise.
  pose proof (converse_keeps_registry (a_initiate_chat task)
                (init (Env.chat_id (heap w session)), w)) as H.
  destruct (converse _ _) as [[[]|e] [a1 w1]]; simpl in *.
  - exact H.
  - destruct (is_Exception e); exact H.
Qed.

Lemma keeps_registry_run_and_report a_initiate_chat session chat text context :
  keeps_registry (run_and_report a_initiate_chat session chat text context).
Proof.
  unfold run_and_report.
  repeat first
    [ apply keeps_registry_ret
    | apply keeps_registry_set_is_busy
    | apply keeps_registry_set_context
    | apply keeps_registry_send_message
    | apply keeps_registry_run_task
    | apply keeps_registry_bind; [|intros ?]
    | match goal with |- keeps_registry (if ?b then _ else _) => destruct b end ].
Qed.

Lemma keeps_registry_report_error chat e : keeps_registry (report_error chat e).
Proof.
  unfold report_error.
  apply keeps_registry_bind; [apply keeps_registry_send_message|].
  intros _. apply keeps_registry_ret.
Qed.

(** [get_session] hands out the object the dictionary holds afterwards. *)
Lemma get_session_registered chat w :
  sessions (get_session chat w).2 !! chat
  = match (get_session chat w).1 with inl session => Some session | inr _ => None end.
Proof.
  unfold get_session. destruct (sessions w !! chat) eqn:H; simpl.
  - exact H.
  - apply lookup_insert_eq.
Qed.

Variable a_initiate_chat : str -> chat.

(** C5.  A task submitted for a chat whose session is busy is turned
    away: [handle_message] does nothing but reply with the wait notice.
    The session dictionary and the session objects are as before, the
    busy flag is still set, the only request made is that reply, and the
    run does not depend on the library at all. *)
Theorem busy_rejected update context w raw session :
  message update = Some (MkMessage (Some raw)) ->
  is_empty (strip raw) = false ->
  sessions w !! effective_chat_id update = Some session ->
  is_busy (heap w session) = true ->
  let out := handle_message a_initiate_chat update context w in
  out = reply_text update wait_notice None w /\
  sessions out.2 = sessions w /\ heap out.2 = heap w /\ next out.2 = next w /\
  is_busy (heap out.2 session) = true /\
  exists outcome,
    outbox out.2
    = outbox w ++ [(ReplyText (effective_chat_id update) wait_notice None, outcome)].
Proof.
  intros Hmsg Hne Hreg Hbusy out. subst out.
  assert (Hraw : is_empty raw = false).
  { destruct raw; [discriminate Hne|reflexivity]. }
  assert (E : handle_message a_initiate_chat update context w
              = reply_text update wait_notice None w).
  { unfold handle_message. rewrite Hmsg. simpl. rewrite Hraw, Hne.
    unfold bind, get_session, get. rewrite Hreg, Hbusy. reflexivity. }
  rewrite E. split; [reflexivity|].
  unfold reply_text. rewrite Hmsg. unfold request.
  destruct (net w) as [|[e|] rest]; simpl; rewrite ?Hbusy; eauto 10.
Qed.

(** With the gate free, [handle_message] is the guarded run. *)
Lemma handle_message_runs update context w raw session w1 :
  message update = Some (MkMessage (Some raw)) ->
  is_empty (strip raw) = false ->
  get_session (effective_chat_id update) w = (inl session, w1) ->
  is_busy (heap w1 session) = false ->
  handle_message a_initiate_chat update context w
  = try_finally
      (try_except
         (run_and_report a_initiate_chat session (effective_chat_id update)
            (strip raw) context)
         is_Exception (report_error (effective_chat_id update)))
      (set_is_busy session false) w1.
Proof.
  intros Hmsg Hne Hget Hidle.
  assert (Hraw : is_empty raw = false).
  { destruct raw; [discriminate Hne|reflexivity]. }
  unfold handle_message. rewrite Hmsg. simpl. rewrite Hraw, Hne.
  unfold bind at 1. rewrite Hget. unfold bind, get. rewrite Hidle. reflexivity.
Qed.

Lemma guarded_run_releases {A} (body : M world A) session w :
  keeps_registry body ->
  let out := try_finally body (set_is_busy session false) w in
  sessions out.2 = sessions w /\ is_busy (heap out.2 session) = false.
Proof.
  intros Hkeep. unfold try_finally. specialize (Hkeep w).
  destruct (body w) as [r w2]. simpl in *.
  rewrite fn_lookup_insert. auto.
Qed.


(** C9.  After [clear_session], the dictionary has no entry for the chat
    and [get_session] creates one: the object it returns is newly
    allocated, distinct from every object there was, registered for the
    chat, and has [is_busy = False] and no bot context. *)
Theorem clear_then_get chat w :
  let w1 := (clear_session chat w).2 in
  let out := get_session chat w1 in
  sessions w1 !! chat = None /\
  out.1 = inl (next w) /\
  sessions out.2 !! chat = Some (next w) /\
  heap out.2 (next w) = MkSession chat false None None /\
  (forall old, (old < next w)%nat -> old <> next w /\ heap out.2 old = heap w old).
Proof.
  intros w1 out. subst out w1.
  assert (H1 : sessions (clear_session chat w).2 !! chat = None).
  { unfold clear_session. destruct (sessions w !! chat) eqn:H; simpl.
    - apply lookup_delete_eq.
    - exact H. }
  assert (H2 : next (clear_session chat w).2 = next w
               /\ heap (clear_session chat w).2 = heap w).
  { unfold clear_session. destruct (sessions w !! chat); auto. }
  destruct H2 as [Hn Hh].
  split; [exact H1|]. unfold get_session. rewrite H1. simpl. rewrite Hn, Hh.
  split; [reflexivity|]. split; [apply lookup_insert_eq|].
  split; [apply fn_lookup_insert|].
  intros old Hold. split; [lia|]. apply fn_lookup_insert_ne. lia.
Qed.

(** C10.  [clear_session] removes the entry of a chat whose session is
    busy, without looking at the flag and without touching the object,
    which stays busy.  The next [get_session] returns a new object that is
    not busy, so [handle_message] for a new task of the same chat goes
    into its guarded run instead of replying with the wait notice.  The
    release at the end of the first run, in whatever world it happens,
    changes the old object only: the dictionary and every other object,
    the new one included, are as they were. *)
Theorem clear_while_busy update context w raw session :
  message update = Some (MkMessage (Some raw)) ->
  is_empty (strip raw) = false ->
  sessions w !! effective_chat_id update = Some session ->
  (session < next w)%nat ->
  is_busy (heap w session) = true ->
  let chat := effective_chat_id update in
  let w1 := (clear_session chat w).2 in
  let fresh := next w in
  let w2 := (get_session chat w1).2 in
  (sessions w1 !! chat = None /\ heap w1 = heap w /\ is_busy (heap w1 session) = true) /\
  ((get_session chat w1).1 = inl fresh /\ fresh <> session /\
   is_busy (heap w2 fresh) = false) /\
  handle_message a_initiate_chat update context w1
  = try_finally
      (try_except (run_and_report a_initiate_chat fresh chat (strip raw) context)
                  is_Exception (report_error chat))
      (set_is_busy fresh false) w2 /\
  (forall w',
     let w'' := (set_is_busy session false w').2 in
     sessions w'' = sessions w' /\
     is_busy (heap w'' session) = false /\
     forall other, other <> session -> heap w'' other = heap w' other).
Proof.
  intros Hmsg Hne Hreg Halloc Hbusy chat w1 fresh w2.
  assert (Hw1 : w1 = MkWorld (delete chat (sessions w)) (heap w) (next w) (net w) (outbox w)).
  { subst w1. unfold clear_session. fold chat in Hreg. rewrite Hreg. reflexivity. }
  assert (Hnone : sessions w1 !! chat = None).
  { rewrite Hw1. apply lookup_delete_eq. }
  assert (Hget : get_session chat w1
                 = (inl fresh,
                    MkWorld (<[chat := fresh]> (sessions w1))
                            (<[fresh := new_session chat]> (heap w1))
                            (S (next w1)) (net w1) (outbox w1))).
  { unfold get_session. rewrite Hnone. rewrite Hw1. reflexivity. }
  assert (Hfresh : is_busy (heap w2 fresh) = false).
  { subst w2. rewrite Hget. simpl. rewrite Hw1. simpl.
    rewrite fn_lookup_insert. reflexivity. }
  split; [|split; [|split]].
  - split; [exact Hnone|]. rewrite Hw1. simpl. auto.
  - rewrite Hget. simpl. split; [reflexivity|]. split; [subst fresh; lia|exact Hfresh].
  - apply (handle_message_runs update context w1 raw fresh w2 Hmsg Hne); [|exact Hfresh].
    fold chat. subst w2. rewrite Hget. reflexivity.
  - intros w'. simpl. split; [reflexivity|].
    split; [rewrite fn_lookup_insert; reflexivity|].
    intros other Hother. apply fn_lookup_insert_ne. congruence.
Qed.

End Gate.

Lemma busy_rejected_witness :
  let out := @Handlers.handle_message ascii_classes (fun _ => Return) second_task a_context
               busy_world in
  Handlers.message second_task = Some (Handlers.MkMessage (Some (utf8 "and what is 3+3"))) /\
  is_empty (strip (utf8 "and what is 3+3")) = false /\
  sessions busy_world !! Handlers.effective_chat_id second_task = Some 0%nat /\
  is_busy (heap busy_world 0%nat) = true /\
  out = Handlers.reply_text second_task Handlers.wait_notice None busy_world /\
  sessions out.2 = sessions busy_world /\
  heap out.2 = heap busy_world /\
  next out.2 = next busy_world /\
  is_busy (heap out.2 0%nat) = true /\
  exists outcome,
    outbox out.2 = outbox busy_world ++ [(ReplyText 7 Handlers.wait_notice None, outcome)].
Proof.
  intros out.
  split; [reflexivity|]. split; [reflexivity|]. split; [reflexivity|].
  split; [reflexivity|].
  exact (@busy_rejected ascii_classes (fun _ => Return) second_task a_context busy_world
           (utf8 "and what is 3+3") 0%nat eq_refl eq_refl eq_refl eq_refl).
Defined.


Lemma clear_then_get_witness :
  let w1 := (SessionManager.clear_session 7 busy_world).2 in
  let out := SessionManager.get_session 7 w1 in
  sessions w1 !! 7%Z = None /\
  out.1 = inl 1%nat /\
  sessions out.2 !! 7%Z = Some 1%nat /\
  heap out.2 1%nat = MkSession 7 false None None /\
  (forall old, (old < 1)%nat -> old <> 1%nat /\ heap out.2 old = heap busy_world old).
Proof.
  exact (clear_then_get 7 busy_world).
Defined.

Lemma clear_while_busy_witness :
  let w1 := (SessionManager.clear_session 7 busy_world).2 in
  let w2 := (SessionManager.get_session 7 w1).2 in
  sessions busy_world !! 7%Z = Some 0%nat /\
  is_busy (heap busy_world 0%nat) = true /\
  sessions w1 !! 7%Z = None /\
  is_busy (heap w1 0%nat) = true /\
  (SessionManager.get_session 7 w1).1 = inl 1%nat /\
  is_busy (heap w2 1%nat) = false /\
  @Handlers.handle_message ascii_classes (fun _ => Return) second_task a_context w1
  = try_finally
      (try_except
         (@Handlers.run_and_report ascii_classes (fun _ => Return) 1%nat 7
            (utf8 "and what is 3+3") a_context)
         is_Exception (@Handlers.report_error ascii_classes 7))
      (SessionManager.set_is_busy 1%nat false) w2.
Proof.
  intros w1 w2.
  destruct (@clear_while_busy ascii_classes (fun _ => Return) second_task a_context
              busy_world (utf8 "and what is 3+3") 0%nat
              eq_refl eq_refl eq_refl (le_n 1) eq_refl)
    as [[H1 [_ H2]] [[H3 [_ H4]] [H5 _]]].
  split; [reflexivity|]. split; [reflexivity|].
  split; [exact H1|]. split; [exact H2|]. split; [exact H3|]. split; [exact H4|].
  exact H5.
Defined.

(** The three ways out of a task, on an empty world: the flag of the
    session is reset each time, and the closing notice tells them apart. *)
Example exits_release_the_gate :
  let answered := fun _ : str =>
        Reply (utf8 "analyst") [Msg (Some (utf8 "4. TERMINATE"))] (fun _ => Return) in
  let exhausted := fun _ : str => Return in
  let failing := fun _ : str => Raise (Exn OtherException (utf8 "backend timeout")) in
  let run := fun lib =>
        (@Handlers.handle_message ascii_classes lib second_task a_context empty_world).2 in
  (is_busy (heap (run answered) 0%nat) = false /\ length (outbox (run answered)) = 4%nat) /\
  (is_busy (heap (run exhausted) 0%nat) = false /\ length (outbox (run exhausted)) = 3%nat) /\
  (is_busy (heap (run failing) 0%nat) = false /\ length (outbox (run failing)) = 3%nat).
Proof. vm_compute. auto 10. Qed.

(* ===================================================================== *)
(** * Further properties of the code *)
(* ===================================================================== *)

(** ** [bot/interface.py]: tags, fences and requests *)

Section Formatting.
Context {ud : UnicodeData}.
Import TelegramInterface.

Lemma re_sub_from_drop matcher repl s :
  forall k, re_sub_from matcher repl k s = re_sub_from matcher repl O (drop k s).
Proof.
  induction s as [|c s IH]; intros [|k]; try reflexivity.
  simpl drop. rewrite <- IH. reflexivity.
Qed.

Lemma match_tag_cons c rest :
  match_tag (c :: rest)
  = if c =? 60
    then match find_gt rest with Some (S i) => Some (S i + 2)%nat | _ => None end
    else None.
Proof.
  destruct (N.eqb_spec c 60) as [->|Hc]; [reflexivity|].
  unfold match_tag. destruct c as [|p]; [reflexivity|].
  do 6 (destruct p as [p|p|]; try reflexivity). congruence.
Qed.

Lemma find_gt_cons c s :
  find_gt (c :: s) = if c =? 62 then Some O else S <$> find_gt s.
Proof. reflexivity. Qed.

Lemma re_sub_tag_cons c s :
  re_sub match_tag [] (c :: s)
  = match match_tag (c :: s) with
    | Some n => re_sub match_tag [] (drop (pred n) s)
    | None => c :: re_sub match_tag [] s
    end.
Proof.
  unfold re_sub. cbn [re_sub_from].
  destruct (match_tag (c :: s)) as [n|]; [|reflexivity].
  simpl app. apply re_sub_from_drop.
Qed.

Lemma find_gt_stripped_none s :
  find_gt s = None -> find_gt (re_sub match_tag [] s) = None.
Proof.
  induction s as [|c s IH]; [reflexivity|].
  rewrite find_gt_cons. destruct (c =? 62) eqn:Hc; [discriminate|].
  destruct (find_gt s) eqn:Hs; [discriminate|]. intros _.
  rewrite re_sub_tag_cons, match_tag_cons, Hs.
  assert (E : (if c =? 60 then @None nat else None) = None) by (destruct (c =? 60); reflexivity).
  rewrite E, find_gt_cons, Hc, IH; reflexivity.
Qed.

Lemma tag_free_nil : tag_free [].
Proof. intros i. rewrite drop_nil. reflexivity. Qed.

Lemma tag_free_stripped_bounded n :
  forall s, (length s <= n)%nat -> tag_free (re_sub match_tag [] s).
Proof.
  induction n as [|n IH]; intros s Hlen.
  - destruct s; [exact tag_free_nil|simpl in Hlen; lia].
  - destruct s as [|c s]; [exact tag_free_nil|].
    simpl in Hlen. rewrite re_sub_tag_cons.
    destruct (match_tag (c :: s)) as [m|] eqn:Hm.
    + apply IH. rewrite length_drop. lia.
    + intros [|i]; [|apply (IH s); lia].
      simpl drop. rewrite match_tag_cons in Hm |- *.
      destruct (c =? 60); [|reflexivity].
      destruct (find_gt s) as [[|j]|] eqn:Hs; [| discriminate |].
      * destruct s as [|d s']; [discriminate|].
        rewrite find_gt_cons in Hs. destruct (d =? 62) eqn:Hd.
        -- rewrite re_sub_tag_cons, match_tag_cons.
           apply N.eqb_eq in Hd. subst d. simpl. reflexivity.
        -- destruct (find_gt s'); discriminate.
      * rewrite (find_gt_stripped_none s Hs). reflexivity.
Qed.

(** X1.  The plain text of the fallback has no tag left: after the
    substitution of line 59 the pattern matches nowhere.  A text without
    [<] goes through unchanged. *)
Theorem tags_stripped s :
  tag_free (re_sub match_tag [] s) /\
  (~ In 60 s -> re_sub match_tag [] s = s).
Proof.
  split; [apply (tag_free_stripped_bounded (length s)); lia|].
  induction s as [|c s IH]; intros Hno; [reflexivity|].
  rewrite re_sub_tag_cons, match_tag_cons.
  destruct (N.eqb_spec c 60) as [->|Hc]; [destruct Hno; left; reflexivity|].
  rewrite IH; [reflexivity|]. intros H. apply Hno. right. exact H.
Qed.

(** *** Fences *)

Lemma replace_from_drop old new s :
  forall k, replace_from old new k s = replace_from old new O (drop k s).
Proof.
  induction s as [|c s IH]; intros [|k]; try reflexivity.
  simpl drop. rewrite <- IH. reflexivity.
Qed.

Lemma replace_absent old new s :
  contains old s = false -> replace old new s = s.
Proof.
  unfold replace. induction s as [|c s IH]; [reflexivity|].
  cbn [contains]. intros H. apply orb_false_iff in H as [H1 H2].
  rewrite replace_from_scan, H1, IH; [reflexivity|exact H2].
Qed.

Lemma replace_fence_cons new c s :
  replace fence new (c :: s)
  = if startswith fence (c :: s)
    then new ++ replace fence new (drop 2 s)
    else c :: replace fence new s.
Proof.
  unfold replace. rewrite replace_from_scan.
  destruct (startswith fence (c :: s)); [|reflexivity].
  f_equal. apply replace_from_drop.
Qed.

Lemma startswith_cons a p c s :
  startswith (a :: p) (c :: s) = (a =? c) && startswith p s.
Proof. reflexivity. Qed.

Lemma contains_fence_skip new r :
  Forall (fun c => c <> 96) new -> contains fence (new ++ r) = contains fence r.
Proof.
  induction 1 as [|x new Hx _ IH]; [reflexivity|].
  change ((x :: new) ++ r) with (x :: (new ++ r)). cbn [contains].
  unfold fence at 1. change (utf8 "```") with [96; 96; 96].
  rewrite startswith_cons. destruct (N.eqb_spec 96 x); [congruence|]. exact IH.
Qed.

Lemma replace_fence_tick x new s :
  Forall (fun c => c <> 96) (x :: new) ->
  startswith [96] (replace fence (x :: new) s) = true -> startswith [96] s = true.
Proof.
  intros Hnew. destruct s as [|c s]; [intros H; exact H|].
  rewrite replace_fence_cons. destruct (startswith fence (c :: s)) eqn:Hf.
  - inversion Hnew as [|? ? Hx _]; subst.
    rewrite <- app_comm_cons, startswith_cons.
    destruct (N.eqb_spec 96 x); [congruence|discriminate].
  - rewrite !startswith_cons. auto.
Qed.

Lemma startswith_fence c s :
  startswith fence (c :: s) = (96 =? c) && startswith [96; 96] s.
Proof. reflexivity. Qed.

Lemma replace_fence_ticks x new s :
  Forall (fun c => c <> 96) (x :: new) ->
  startswith [96; 96] (replace fence (x :: new) s) = true ->
  startswith [96; 96] s = true.
Proof.
  intros Hnew. destruct s as [|c s]; [intros H; exact H|].
  rewrite replace_fence_cons. destruct (startswith fence (c :: s)) eqn:Hf.
  - inversion Hnew as [|? ? Hx _]; subst.
    rewrite <- app_comm_cons, startswith_cons.
    destruct (N.eqb_spec 96 x); [congruence|discriminate].
  - rewrite !startswith_cons. intros H. apply andb_true_iff in H as [Hc H].
    rewrite Hc. apply (replace_fence_tick x new s Hnew H).
Qed.

Lemma no_fence_bounded x new n :
  Forall (fun c => c <> 96) (x :: new) ->
  forall s, (length s <= n)%nat -> contains fence (replace fence (x :: new) s) = false.
Proof.
  intros Hnew. induction n as [|n IH]; intros s Hlen.
  - destruct s; [reflexivity|simpl in Hlen; lia].
  - destruct s as [|c s]; [reflexivity|]. simpl in Hlen.
    rewrite replace_fence_cons. destruct (startswith fence (c :: s)) eqn:Hf.
    + rewrite contains_fence_skip by assumption.
      apply IH. rewrite length_drop. lia.
    + cbn [contains]. rewrite (IH s) by lia. rewrite orb_false_r.
      rewrite startswith_fence in Hf |- *.
      destruct (96 =? c); [|reflexivity]. rewrite andb_true_l in Hf. rewrite andb_true_l.
      destruct (startswith [96; 96] (replace fence (x :: new) s)) eqn:Hr; [|reflexivity].
      apply (replace_fence_ticks x new s Hnew) in Hr. congruence.
Qed.

Lemma no_fence_left x new s :
  Forall (fun c => c <> 96) (x :: new) ->
  contains fence (replace fence (x :: new) s) = false.
Proof. intros H. apply (no_fence_bounded x new (length s) H). lia. Qed.

(** X2.  No Markdown fence survives formatting: the formatted message is
    the header with the role followed by a body in which three
    backquotes occur nowhere. *)
Theorem format_message_no_fence text role :
  exists body,
    _format_message text role = header role ++ body /\
    contains fence body = false.
Proof.
  unfold _format_message, header.
  set (c1 := if contains (utf8 ">>>>>>>> EXECUTING CODE BLOCK") (strip text)
             then _ else _).
  set (c2 := if contains (utf8 "exitcode:") c1 then _ else _).
  eexists. split; [rewrite <- !app_assoc; reflexivity|].
  destruct (contains (utf8 "```python") c2).
  - apply (no_fence_left 60). vm_compute. repeat constructor; discriminate.
  - destruct (contains (utf8 "```") c2) eqn:Hf.
    + apply (no_fence_left 60). vm_compute. repeat constructor; discriminate.
    + exact Hf.
Qed.

(** X3.  A text without execution banner, without [exitcode:] and without
    a fence marked [python] has every fence, the closing ones as well as
    the opening ones, turned into [<pre><code>]: the second replacement
    of the generic branch finds nothing to replace. *)
Theorem format_message_generic_fence text role :
  contains (utf8 ">>>>>>>> EXECUTING CODE BLOCK") (strip text) = false ->
  contains (utf8 "exitcode:") (strip text) = false ->
  contains (utf8 "```python") (strip text) = false ->
  _format_message text role
  = header role ++ replace fence (utf8 "<pre><code>") (strip text).
Proof.
  intros Hb He Hp. unfold _format_message, header. rewrite Hb, He, Hp.
  rewrite <- !app_assoc. do 5 f_equal.
  destruct (contains (utf8 "```") (strip text)) eqn:Hf.
  - apply replace_absent. apply (no_fence_left 60).
    vm_compute. repeat constructor; discriminate.
  - symmetry. apply replace_absent. exact Hf.
Qed.

End Formatting.

Section Requests.
Context {ud : UnicodeData}.
Import TelegramInterface.

(** What a call of [send_message] leaves behind. *)
Lemma send_message_footprint chat text role w :
  let out := send_message chat text role w in
  exists new,
    outbox out.2 = outbox w ++ new /\
    (length new <= 2)%nat /\
    Forall (fun e => call_chat e.1 = chat) new /\
    (is_empty (strip text) = true -> new = []) /\
    (is_empty (strip text) = false -> new <> []) /\
    (out.1 = inl true <-> exists c, last new = Some (c, None)) /\
    net out.2 = drop (length new) (net w) /\
    sessions out.2 = sessions w /\ heap out.2 = heap w /\ next out.2 = next w.
Proof.
  intros out. subst out. unfold send_message. rewrite is_empty_strip.
  destruct (is_empty (strip text)) eqn:Hne.
  - exists []. simpl. rewrite app_nil_r, drop_0.
    repeat split; auto; try discriminate. intros [c Hc]. discriminate.
  - unfold try_except, bind, request, ret.
    destruct w as [ss hp nx nt ob]; simpl.
    destruct nt as [|[e|] [|[e2|] rest]]; simpl;
      try destruct (is_TelegramError e) eqn:Hte; simpl;
      try destruct (is_Exception e2) eqn:Hex; simpl;
      first [ eexists [_; _]; simpl; rewrite <- app_assoc; simpl;
              split; [reflexivity|]
            | eexists [_]; simpl; split; [reflexivity|] ];
      (split; [lia|]); (split; [repeat constructor|]);
      (split; [discriminate|]); (split; [discriminate|]);
      (split; [|auto]);
      (split; [ first [discriminate | eauto] | ]);
      first [ reflexivity | intros [c H]; discriminate H ].
Qed.

(** X4.  [send_message] makes at most two requests, none for a blank text
    and at least one otherwise, all of them to its own chat; it returns
    [True] exactly when the last request it made was delivered; and it
    leaves the sessions alone. *)
Theorem send_message_requests chat text role w :
  let out := send_message chat text role w in
  exists new,
    outbox out.2 = outbox w ++ new /\
    (length new <= 2)%nat /\
    Forall (fun e => call_chat e.1 = chat) new /\
    (is_empty (strip text) = true <-> new = []) /\
    (out.1 = inl true <-> exists c, last new = Some (c, None)) /\
    sessions out.2 = sessions w /\ heap out.2 = heap w /\ next out.2 = next w.
Proof.
  intros out.
  destruct (send_message_footprint chat text role w)
    as [new [H1 [H2 [H3 [H4 [H5 [H6 [_ H7]]]]]]]].
  exists new. split; [exact H1|]. split; [exact H2|]. split; [exact H3|].
  split; [split; [exact H4|]|split; [exact H6|exact H7]].
  intros Hnil. destruct (is_empty (strip text)); [reflexivity|].
  destruct (H5 eq_refl Hnil).
Qed.

End Requests.

(** ** [core/agent_system.py]: the reply function and the run *)

Section ReplyFunction.
Context {ud : UnicodeData}.

(** X5.  The reply function does nothing for an empty list of messages,
    for a last message without content and for a blank content: it hands
    back the continue flag and leaves the agent system and the world as
    they are. *)
Theorem handler_ignores_blank messages agent_name s :
  is_empty (strip (last_text messages)) = true ->
  _handle_message messages agent_name s = (inl (false, None), s).
Proof.
  intros H. rewrite handle_message_act. unfold classify. rewrite H. reflexivity.
Qed.

Lemma final_answer_solid payload :
  payload = strip payload -> is_empty (strip (final_answer payload)) = false.
Proof.
  intros H. unfold final_answer. destruct (is_empty payload) eqn:He.
  - reflexivity.
  - rewrite <- H. exact He.
Qed.

Lemma classify_payload_solid raw :
  match classify raw with
  | Service => True
  | Termination payload => is_empty (strip (final_answer payload)) = false
  | Content payload => is_empty (strip payload) = false
  end.
Proof.
  unfold classify. destruct (is_empty (strip raw)) eqn:He; [exact I|].
  destruct (is_service (strip raw)); [exact I|].
  destruct (contains TERMINATE (upper (strip raw))).
  - apply final_answer_solid. symmetry. apply strip_idempotent.
  - rewrite strip_idempotent. exact He.
Qed.

Lemma tg_send_footprint text role a w :
  let out := tg_send text role (a, w) in
  out.2.1 = a /\
  exists new,
    outbox out.2.2 = outbox w ++ new /\
    (length new <= 2)%nat /\
    Forall (fun e => call_chat e.1 = chat_id a) new /\
    (is_empty (strip text) = false -> new <> []) /\
    sessions out.2.2 = sessions w /\ heap out.2.2 = heap w /\ next out.2.2 = next w.
Proof.
  unfold tg_send, bind, get, on_world. simpl.
  destruct (send_message_footprint (chat_id a) text role w)
    as [new [H1 [H2 [H3 [_ [H5 [_ [_ H7]]]]]]]].
  destruct (TelegramInterface.send_message (chat_id a) text role w) as [r w1].
  simpl in *. split; [reflexivity|]. exists new. auto.
Qed.

Lemma added_app (w w' : world) new : outbox w' = outbox w ++ new -> added w w' = new.
Proof. intros H. unfold added. rewrite H. apply drop_app_length. Qed.

(** X6.  A message reaches the transport exactly when it is not a service
    message: the reply function leaves everything as it is for a service
    message, and makes one or two requests otherwise; whatever it
    requests is addressed to the chat of the agent system, and it never
    touches the sessions. *)
Theorem handler_requests messages agent_name s :
  let out := _handle_message messages agent_name s in
  let new := added s.2 out.2.2 in
  outbox out.2.2 = outbox s.2 ++ new /\
  Forall (fun e => call_chat e.1 = chat_id s.1) new /\
  (classify (last_text messages) = Service -> out.2 = s) /\
  (classify (last_text messages) <> Service -> (1 <= length new <= 2)%nat) /\
  sessions out.2.2 = sessions s.2 /\ heap out.2.2 = heap s.2 /\ next out.2.2 = next s.2.
Proof.
  intros out new. subst new out. rewrite handle_message_act.
  pose proof (classify_payload_solid (last_text messages)) as Hsolid.
  destruct s as [a w].
  destruct (classify (last_text messages)) as [|payload|payload]; simpl fst; simpl snd.
  - simpl. unfold added. rewrite drop_all, app_nil_r.
    repeat split; auto. congruence.
  - unfold act, bind, modify, ret, set_termination_detected, set_last_message.
    simpl fst; simpl snd.
    destruct (tg_send_footprint (final_answer payload) final_role
                (Mk (chat_id a) true (last_message a)) w)
      as [Ha [new [H1 [H2 [H3 [H4 H5]]]]]].
    destruct (tg_send _ _ _) as [[b|e] [a1 w1]]; simpl in *;
      rewrite (added_app w w1 new H1);
      (repeat split; try tauto; try discriminate;
       [destruct new; [destruct (H4 Hsolid eq_refl)|simpl; lia]]).
  - unfold act, bind, ret.
    destruct (tg_send_footprint payload
                (role_display agent_name (strip (last_text messages))) a w)
      as [Ha [new [H1 [H2 [H3 [H4 H5]]]]]].
    destruct (tg_send _ _ _) as [[b|e] [a1 w1]]; simpl in *;
      rewrite (added_app w w1 new H1);
      (repeat split; try tauto; try discriminate;
       [destruct new; [destruct (H4 Hsolid eq_refl)|simpl; lia]]).
Qed.

Lemma handler_agent messages agent_name s :
  let out := _handle_message messages agent_name s in
  chat_id out.2.1 = chat_id s.1 /\
  (termination_detected s.1 = true -> termination_detected out.2.1 = true) /\
  ((exists payload, classify (last_text messages) = Termination payload) ->
   termination_detected out.2.1 = true).
Proof.
  intros out. subst out. rewrite handle_message_act. destruct s as [a w].
  destruct (classify (last_text messages)) as [|payload|payload]; simpl fst; simpl snd.
  - simpl. repeat split; auto. intros [p Hp]. discriminate.
  - unfold act, bind, modify, ret, set_termination_detected, set_last_message.
    simpl fst; simpl snd.
    pose proof (tg_send_agent (final_answer payload) final_role
                  (Mk (chat_id a) true (last_message a)) w) as Ha.
    destruct (tg_send _ _ _) as [[b|e] [a1 w1]]; simpl in *; subst a1; simpl; auto.
  - unfold act, bind, ret.
    pose proof (tg_send_agent payload
                  (role_display agent_name (strip (last_text messages))) a w) as Ha.
    destruct (tg_send _ _ _) as [[b|e] [a1 w1]]; simpl in *; subst a1;
      (repeat split; auto; intros [p Hp]; discriminate).
Qed.

Lemma converse_agent c :
  forall s,
    let out := converse c s in
    chat_id out.2.1 = chat_id s.1 /\
    (termination_detected s.1 = true -> termination_detected out.2.1 = true).
Proof.
  induction c as [| e | agent_name messages k IH]; intros s; simpl; auto.
  destruct (handler_agent messages agent_name s) as [H1 [H2 _]].
  destruct (_handle_message messages agent_name s) as [r s1]. simpl in *.
  destruct (IH r s1) as [H3 H4]. split; [congruence|auto].
Qed.

(** X7.  Nothing takes the termination flag back or changes the chat of
    the agent system: neither a call of the reply function nor a whole
    run of the library.  Once [termination_detected] is set it stays set,
    whatever the library makes of the rest of the chat. *)
Theorem flag_never_reset :
  (forall messages agent_name s,
     let out := _handle_message messages agent_name s in
     chat_id out.2.1 = chat_id s.1 /\
     (termination_detected s.1 = true -> termination_detected out.2.1 = true)) /\
  (forall c s,
     let out := converse c s in
     chat_id out.2.1 = chat_id s.1 /\
     (termination_detected s.1 = true -> termination_detected out.2.1 = true)).
Proof.
  split.
  - intros messages agent_name s.
    destruct (handler_agent messages agent_name s) as [H1 [H2 _]]. auto.
  - intros c s. apply converse_agent.
Qed.

Lemma heard_some_or_none texts :
  Exists is_termination texts \/ Forall not_termination texts.
Proof.
  induction texts as [|t texts [IH|IH]]; [right; constructor| |].
  - left. apply Exists_cons_tl, IH.
  - destruct (classify t) as [|p|p] eqn:Hc.
    + right. constructor; [intros q; congruence|exact IH].
    + left. apply Exists_cons_hd. exists p. exact Hc.
    + right. constructor; [intros q; congruence|exact IH].
Qed.

Lemma converse_sets_flag c :
  forall s,
    Exists is_termination (heard c s) ->
    termination_detected (converse c s).2.1 = true.
Proof.
  induction c as [| e | agent_name messages k IH]; intros s Hex; simpl in *;
    try (apply Exists_nil in Hex; destruct Hex).
  destruct (handler_agent messages agent_name s) as [_ [_ H3]].
  destruct (_handle_message messages agent_name s) as [r s1]. simpl in *.
  apply Exists_cons in Hex as [Hhd|Htl].
  - apply (converse_agent (k r) s1). apply H3, Hhd.
  - apply IH, Htl.
Qed.

(** X8.  When [run_task] returns, its flag tells whether a final answer
    was seen: it is [True] exactly when one of the texts handed to the
    reply functions in the run was classified [Termination]. *)
Theorem run_task_flag a_initiate_chat task chat w r s' :
  AgentSystem.run_task a_initiate_chat task (init chat, w) = (inl r, s') ->
  (r.1 = true <->
   Exists is_termination (heard (a_initiate_chat task) (init chat, w))).
Proof.
  unfold AgentSystem.run_task, bind, try_except, get, ret, raise.
  set (c := a_initiate_chat task).
  pose proof (converse_sets_flag c (init chat, w)) as Hset.
  pose proof (converse_keeps_agent c (init chat) w) as Hkeep.
  destruct (converse c (init chat, w)) as [[[]|e] [a1 w1]] eqn:Hrun; simpl in *.
  - intros [= <- <-]. simpl. split.
    + intros Hflag. destruct (heard_some_or_none (heard c (init chat, w))) as [H|H];
        [exact H|].
      rewrite (Hkeep H) in Hflag. discriminate.
    + exact Hset.
  - destruct (is_Exception e); discriminate.
Qed.

End ReplyFunction.

(** X9.  The speaker transitions: no agent may follow itself, every agent
    may be followed by some agent, every agent can be reached from every
    agent in at most three allowed turns, and in every allowed sequence
    of turns the coder is followed by the executor and the executor by
    the analyst. *)
Theorem transitions_connected :
  (forall a, allowed_transitions a <> [] /\ ~ In a (allowed_transitions a)) /\
  (forall a b, exists turns,
     (1 <= length turns <= 3)%nat /\ legal_turns a turns /\ last turns = Some b) /\
  (forall a before x y rest,
     legal_turns a (before ++ x :: y :: rest) ->
     In y (allowed_transitions x) /\
     (x = coder -> y = executor) /\ (x = executor -> y = analyst)).
Proof.
  split; [|split].
  - intros []; split; try discriminate; simpl; intuition discriminate.
  - intros [] [];
      [ exists [analyst; user_proxy] | exists [analyst] | exists [analyst; coder]
      | exists [analyst; coder; executor]
      | exists [user_proxy] | exists [user_proxy; analyst] | exists [coder]
      | exists [coder; executor]
      | exists [executor; analyst; user_proxy] | exists [executor; analyst]
      | exists [executor; analyst; coder] | exists [executor]
      | exists [analyst; user_proxy] | exists [analyst] | exists [analyst; coder]
      | exists [analyst; coder; executor] ];
      (split; [simpl; lia|]; split; [simpl; auto 10|reflexivity]).
  - intros a before. revert a.
    induction before as [|z before IH]; intros a x y rest H.
    + simpl in H. destruct H as [_ [Hy _]].
      split; [exact Hy|]. split; intros ->; simpl in Hy; intuition congruence.
    + simpl in H. destruct H as [_ H]. apply (IH z x y rest), H.
Qed.

(** ** [core/session_manager.py] and [bot/handlers.py] *)


Section Store.
Context {ud : UnicodeData}.
Import SessionManager Handlers.

(** *** Frames *)

Lemma touches_only_ret {A} session (a : A) : touches_only session (ret a).
Proof. intros w. simpl. auto. Qed.

Lemma touches_only_bind {A B} session (m : M world A) (k : A -> M world B) :
  touches_only session m -> (forall a, touches_only session (k a)) ->
  touches_only session (bind m k).
Proof.
  intros Hm Hk w. unfold bind. destruct (Hm w) as [H1 [H2 [H3 H4]]].
  destruct (m w) as [[a|e] w1]; simpl in *; [|auto].
  destruct (Hk a w1) as [K1 [K2 [K3 K4]]].
  split; [congruence|]. split; [congruence|]. split; [|congruence].
  intros r Hr. rewrite K3, H3; auto.
Qed.

Lemma touches_only_try_except {A} session (m : M world A) catches h :
  touches_only session m -> (forall e, touches_only session (h e)) ->
  touches_only session (try_except m catches h).
Proof.
  intros Hm Hh w. unfold try_except. destruct (Hm w) as [H1 [H2 [H3 H4]]].
  destruct (m w) as [[a|e] w1]; simpl in *; [auto|].
  destruct (catches e); [|auto].
  destruct (Hh e w1) as [K1 [K2 [K3 K4]]].
  split; [congruence|]. split; [congruence|]. split; [|congruence].
  intros r Hr. rewrite K3, H3; auto.
Qed.

Lemma touches_only_try_finally {A} session (m : M world A) final :
  touches_only session m -> touches_only session final ->
  touches_only session (try_finally m final).
Proof.
  intros Hm Hf w. unfold try_finally. destruct (Hm w) as [H1 [H2 [H3 H4]]].
  destruct (m w) as [r w1]. simpl in *.
  destruct (Hf w1) as [K1 [K2 [K3 K4]]].
  destruct (final w1) as [[u|e] w2]; simpl in *;
    (split; [congruence|]; split; [congruence|]; split; [|congruence];
     intros r0 Hr; rewrite K3, H3; auto).
Qed.

Lemma touches_only_request session c : touches_only session (request c).
Proof.
  intros w. unfold request. destruct (net w) as [|[e|] rest]; simpl; auto.
Qed.

Lemma touches_only_reply_text session update text mode :
  touches_only session (reply_text update text mode).
Proof.
  unfold reply_text. destruct (message update).
  - apply touches_only_request.
  - intros w. simpl. auto.
Qed.

Lemma touches_only_send_message session chat text role :
  touches_only session (TelegramInterface.send_message chat text role).
Proof.
  intros w.
  destruct (send_message_footprint chat text role w)
    as [new [_ [_ [_ [_ [_ [_ [_ [H1 [H2 H3]]]]]]]]]].
  rewrite H1, H2, H3. auto.
Qed.

Lemma touches_only_set_is_busy session b : touches_only session (set_is_busy session b).
Proof.
  intros w. simpl. repeat split; auto.
  - intros r Hr. apply fn_lookup_insert_ne. congruence.
  - rewrite fn_lookup_insert. reflexivity.
Qed.

Lemma touches_only_set_context session b l :
  touches_only session (set_context session b l).
Proof.
  intros w. simpl. repeat split; auto.
  - intros r Hr. apply fn_lookup_insert_ne. congruence.
  - rewrite fn_lookup_insert. reflexivity.
Qed.

Lemma handler_keeps_store messages agent_name s :
  let out := _handle_message messages agent_name s in
  sessions out.2.2 = sessions s.2 /\ heap out.2.2 = heap s.2 /\ next out.2.2 = next s.2.
Proof.
  intros out. subst out. rewrite handle_message_act. destruct s as [a w].
  destruct (classify (last_text messages)) as [|payload|payload]; simpl fst; simpl snd.
  - simpl. auto.
  - unfold act, bind, modify, ret, set_termination_detected, set_last_message.
    simpl fst; simpl snd.
    destruct (tg_send_footprint (final_answer payload) final_role
                (Mk (chat_id a) true (last_message a)) w)
      as [_ [new [_ [_ [_ [_ H]]]]]].
    destruct (tg_send _ _ _) as [[b|e] [a1 w1]]; exact H.
  - unfold act, bind, ret.
    destruct (tg_send_footprint payload
                (role_display agent_name (strip (last_text messages))) a w)
      as [_ [new [_ [_ [_ [_ H]]]]]].
    destruct (tg_send _ _ _) as [[b|e] [a1 w1]]; exact H.
Qed.

Lemma converse_keeps_store c :
  forall s,
    let out := converse c s in
    sessions out.2.2 = sessions s.2 /\ heap out.2.2 = heap s.2 /\ next out.2.2 = next s.2.
Proof.
  induction c as [| e | agent_name messages k IH]; intros s; simpl; auto.
  destruct (handler_keeps_store messages agent_name s) as [H1 [H2 H3]].
  destruct (_handle_message messages agent_name s) as [r s1]. simpl in *.
  destruct (IH r s1) as [K1 [K2 K3]]. repeat split; congruence.
Qed.

Lemma touches_only_run_task lib session0 session task :
  touches_only session0 (SessionManager.run_task lib session task).
Proof.
  intros w. unfold SessionManager.run_task.
  destruct (bot (heap w session)); [|simpl; auto].
  destruct (loop (heap w session)); [|simpl; auto].
  unfold AgentSystem.run_task, bind, try_except, get, ret, raise.
  destruct (converse_keeps_store (lib task)
              (init (Env.chat_id (heap w session)), w)) as [H1 [H2 H3]].
  destruct (converse _ _) as [[[]|e] [a1 w1]]; simpl in *;
    try destruct (is_Exception e); simpl;
    rewrite H1, H2, H3; auto.
Qed.

Variable a_initiate_chat : str -> chat.

Lemma touches_only_run_and_report session chat text context :
  touches_only session (run_and_report a_initiate_chat session chat text context).
Proof.
  unfold run_and_report.
  repeat first
    [ apply touches_only_ret
    | apply touches_only_set_is_busy
    | apply touches_only_set_context
    | apply touches_only_send_message
    | apply touches_only_run_task
    | apply touches_only_bind; [|intros ?]
    | match goal with |- touches_only _ (if ?b then _ else _) => destruct b end ].
Qed.

Lemma touches_only_report_error session chat e :
  touches_only session (report_error chat e).
Proof.
  unfold report_error.
  apply touches_only_bind; [apply touches_only_send_message|].
  intros _. apply touches_only_ret.
Qed.

Lemma touches_only_guarded_run session chat text context :
  touches_only session
    (try_finally
       (try_except (run_and_report a_initiate_chat session chat text context)
                   is_Exception (report_error chat))
       (set_is_busy session false)).
Proof.
  apply touches_only_try_finally; [|apply touches_only_set_is_busy].
  apply touches_only_try_except;
    [apply touches_only_run_and_report|intros e; apply touches_only_report_error].
Qed.

Lemma registered_touched {A} session (m : M world A) w :
  touches_only session m -> registered w -> registered (m w).2.
Proof.
  intros Hm Hw k r Hk. destruct (Hm w) as [H1 [H2 [H3 H4]]].
  rewrite H1 in Hk. destruct (Hw k r Hk) as [Hr Hc].
  split; [lia|]. destruct (decide (r = session)) as [->|Hne].
  - congruence.
  - rewrite H3; auto.
Qed.

(** *** The session dictionary *)

Lemma get_session_cases chat w :
  (exists session,
     sessions w !! chat = Some session /\ get_session chat w = (inl session, w)) \/
  (sessions w !! chat = None /\
   get_session chat w
   = (inl (next w),
      MkWorld (<[chat := next w]> (sessions w))
              (<[next w := new_session chat]> (heap w))
              (S (next w)) (net w) (outbox w))).
Proof.
  unfold get_session. destruct (sessions w !! chat) as [session|] eqn:H.
  - left. exists session. auto.
  - right. auto.
Qed.

Lemma registered_get_session chat w :
  registered w -> registered (get_session chat w).2.
Proof.
  intros Hw. destruct (get_session_cases chat w) as [[session [_ ->]]|[Hnone ->]];
    [exact Hw|].
  intros k r Hk. simpl in *.
  destruct (decide (chat = k)) as [->|Hne].
  - rewrite lookup_insert_eq in Hk. injection Hk as <-.
    rewrite fn_lookup_insert. split; [lia|reflexivity].
  - rewrite lookup_insert_ne in Hk by exact Hne.
    destruct (Hw k r Hk) as [Hr Hc]. split; [lia|].
    rewrite fn_lookup_insert_ne by lia. exact Hc.
Qed.

Lemma registered_clear_session chat w :
  registered w -> registered (clear_session chat w).2.
Proof.
  intros Hw. unfold clear_session. destruct (sessions w !! chat); [|exact Hw].
  intros k r Hk. simpl in *.
  destruct (decide (chat = k)) as [->|Hne].
  - rewrite lookup_delete_eq in Hk. discriminate.
  - rewrite lookup_delete_ne in Hk by exact Hne. apply Hw, Hk.
Qed.

Lemma get_session_footprint chat w :
  let out := get_session chat w in
  exists session,
    out.1 = inl session /\
    sessions out.2 !! chat = Some session /\
    (forall other, other <> chat -> sessions out.2 !! other = sessions w !! other) /\
    (forall r, (r < next w)%nat -> heap out.2 r = heap w r) /\
    net out.2 = net w /\ outbox out.2 = outbox w.
Proof.
  intros out. subst out.
  destruct (get_session_cases chat w) as [[session [Hs ->]]|[Hnone ->]].
  - exists session. simpl. repeat split; auto.
  - exists (next w). simpl. repeat split; auto.
    + apply lookup_insert_eq.
    + intros other Hne. apply lookup_insert_ne. congruence.
    + intros r Hr. apply fn_lookup_insert_ne. lia.
Qed.

(** X10.  [get_session] is stable: it hands out the object registered for
    the chat, a second call hands out the same object and changes
    nothing, and neither the entries of other chats nor the objects
    allocated before are touched. *)
Theorem get_session_stable chat w :
  let out := get_session chat w in
  exists session,
    out.1 = inl session /\
    sessions out.2 !! chat = Some session /\
    get_session chat out.2 = (inl session, out.2) /\
    (forall other, other <> chat -> sessions out.2 !! other = sessions w !! other) /\
    (forall r, (r < next w)%nat -> heap out.2 r = heap w r) /\
    net out.2 = net w /\ outbox out.2 = outbox w.
Proof.
  intros out.
  destruct (get_session_footprint chat w) as [session [H1 [H2 [H3 [H4 H5]]]]].
  exists session. fold out in H1, H2.
  split; [exact H1|]. split; [exact H2|]. split; [|auto].
  unfold get_session at 1. rewrite H2. reflexivity.
Qed.

Lemma clear_session_footprint chat w :
  let out := clear_session chat w in
  out.1 = inl tt /\
  sessions out.2 !! chat = None /\
  (forall other, other <> chat -> sessions out.2 !! other = sessions w !! other) /\
  heap out.2 = heap w /\ next out.2 = next w /\
  net out.2 = net w /\ outbox out.2 = outbox w.
Proof.
  intros out. subst out. unfold clear_session.
  destruct (sessions w !! chat) as [session|] eqn:H; simpl.
  - rewrite lookup_delete_eq. repeat split; auto.
    intros other Hne. apply lookup_delete_ne. congruence.
  - rewrite H. repeat split; auto.
Qed.

(** X11.  [clear_session] only ever removes the entry of its chat: it is
    a no-op when there is none, a second call changes nothing more, the
    entries of other chats, the objects and the transport are as before,
    and it does not raise. *)
Theorem clear_session_only chat w :
  let out := clear_session chat w in
  out.1 = inl tt /\
  sessions out.2 !! chat = None /\
  (sessions w !! chat = None -> out.2 = w) /\
  clear_session chat out.2 = (inl tt, out.2) /\
  (forall other, other <> chat -> sessions out.2 !! other = sessions w !! other) /\
  heap out.2 = heap w /\ next out.2 = next w /\
  net out.2 = net w /\ outbox out.2 = outbox w.
Proof.
  intros out.
  destruct (clear_session_footprint chat w) as [H1 [H2 H3]]. fold out in H1, H2.
  split; [exact H1|]. split; [exact H2|]. split; [|split; [|exact H3]].
  - intros Hnone. subst out. unfold clear_session. rewrite Hnone. reflexivity.
  - unfold clear_session at 1. rewrite H2. reflexivity.
Qed.

(** X12.  [Session.run_task] on a session without bot context, such as
    one [get_session] has just created, raises [ValueError] before the
    library is started: nothing is requested and the world is as it was.
    Once [set_context] has been called it is the run of a new agent
    system for the chat of the session. *)
Theorem run_task_needs_context session task w :
  (bot (heap w session) = None \/ loop (heap w session) = None ->
   SessionManager.run_task a_initiate_chat session task w
   = (inr (Exn ValueError (utf8 "Bot context not set")), w)) /\
  (forall chat, sessions w !! chat = None ->
   (bind (get_session chat)
         (fun s => SessionManager.run_task a_initiate_chat s task) w).1
   = inr (Exn ValueError (utf8 "Bot context not set"))) /\
  (forall b l,
     let w1 := (set_context session b l w).2 in
     SessionManager.run_task a_initiate_chat session task w1
     = match AgentSystem.run_task a_initiate_chat task
               (init (Env.chat_id (heap w session)), w1) with
       | (r, (_, w')) => (r, w')
       end).
Proof.
  split; [|split].
  - unfold SessionManager.run_task. intros [H|H].
    + rewrite H. reflexivity.
    + rewrite H. destruct (bot (heap w session)); reflexivity.
  - intros chat Hnone. unfold bind, get_session. rewrite Hnone.
    unfold SessionManager.run_task. simpl. rewrite fn_lookup_insert. reflexivity.
  - intros b l w1. subst w1. unfold SessionManager.run_task. simpl.
    rewrite fn_lookup_insert. reflexivity.
Qed.

(** *** The handlers *)

Lemma handle_message_shape update context w :
  handle_message a_initiate_chat update context w = (inl tt, w) \/
  exists session (run : M world unit),
    (get_session (effective_chat_id update) w).1 = inl session /\
    touches_only session run /\
    handle_message a_initiate_chat update context w
    = run (get_session (effective_chat_id update) w).2.
Proof.
  unfold handle_message.
  destruct (message update) as [m|]; [|auto].
  destruct (text m) as [raw|]; [|auto].
  destruct (is_empty raw); [auto|].
  destruct (is_empty (strip raw)); [auto|].
  right. unfold bind at 1.
  destruct (get_session_cases (effective_chat_id update) w)
    as [[session [_ ->]]|[_ ->]]; simpl fst; simpl snd; unfold bind, get.
  - exists session. destruct (is_busy (heap w session)); eexists;
      (split; [reflexivity|]); (split; [|reflexivity]).
    + apply touches_only_reply_text.
    + apply touches_only_guarded_run.
  - exists (next w).
    match goal with |- context [is_busy ?o] => destruct (is_busy o) end; eexists;
      (split; [reflexivity|]); (split; [|reflexivity]).
    + apply touches_only_reply_text.
    + apply touches_only_guarded_run.
Qed.

(** X13.  The handlers keep the session dictionary sound: if every entry
    refers to an allocated object carrying the chat id it is registered
    under, the same holds after [start], after [reset] and after
    [handle_message], however they end. *)
Theorem handlers_keep_registered update context w :
  registered w ->
  registered (start update context w).2 /\
  registered (reset update context w).2 /\
  registered (handle_message a_initiate_chat update context w).2.
Proof.
  intros Hw. split; [|split].
  - apply (registered_touched O); [apply touches_only_reply_text|exact Hw].
  - unfold reset, bind.
    pose proof (registered_clear_session (effective_chat_id update) w Hw) as H1.
    destruct (clear_session (effective_chat_id update) w) as [[[]|e] w1] eqn:Hc;
      simpl in *; [|exact H1].
    apply (registered_touched O); [apply touches_only_reply_text|exact H1].
  - destruct (handle_message_shape update context w)
      as [->|[session [run [_ [Hrun ->]]]]]; [exact Hw|].
    apply (registered_touched session); [exact Hrun|].
    apply registered_get_session, Hw.
Qed.

(** X14.  A task of one chat leaves the sessions of the other chats
    alone: in a sound dictionary, [handle_message] changes neither the
    entry nor the session object of any chat but the one of the update. *)
Theorem handle_message_isolated update context w other :
  registered w ->
  other <> effective_chat_id update ->
  let out := handle_message a_initiate_chat update context w in
  sessions out.2 !! other = sessions w !! other /\
  (forall session, sessions w !! other = Some session ->
                   heap out.2 session = heap w session).
Proof.
  intros Hw Hother out. subst out.
  destruct (handle_message_shape update context w)
    as [->|[session [run [E1 [Hrun ->]]]]]; [auto|].
  set (chat := effective_chat_id update) in *.
  destruct (get_session_footprint chat w) as [s0 [E1' [E2 [E4 [E5 _]]]]].
  pose proof (registered_get_session chat w Hw) as Hw1.
  rewrite E1 in E1'. injection E1' as <-.
  destruct (Hrun (get_session chat w).2) as [H1 [_ [H3 _]]].
  rewrite H1, E4 by exact Hother.
  split; [reflexivity|]. intros r Hr.
  destruct (Hw other r Hr) as [Hlt Hc].
  rewrite H3; [apply E5, Hlt|].
  intros ->. destruct (Hw1 chat session E2) as [_ Hc1].
  rewrite E5 in Hc1 by exact Hlt. congruence.
Qed.

(** X15.  An update without message, without text, or with a text that is
    blank is passed over: [handle_message] returns at once, creates no
    session and requests nothing. *)
Theorem handle_message_passes_over update context w :
  nothing_to_do update ->
  handle_message a_initiate_chat update context w = (inl tt, w).
Proof.
  unfold nothing_to_do, handle_message.
  destruct (message update) as [m|]; [|reflexivity].
  destruct (text m) as [raw|]; [|reflexivity].
  intros H. destruct (is_empty raw); [reflexivity|]. rewrite H. reflexivity.
Qed.

(** X16.  [reset] removes the entry of the chat, if there is one, and no
    other, and it touches no session object, whatever the update and
    however the handler ends.  On an update that carries a message it then
    makes exactly one request, the confirmation, returning normally
    exactly when that is delivered.  On an update without message it
    makes no request and raises [AttributeError]: the entry is gone all
    the same, the transport is untouched. *)
Theorem reset_clears update context w :
  let chat := effective_chat_id update in
  let out := reset update context w in
  sessions out.2 !! chat = None /\
  (forall other, other <> chat -> sessions out.2 !! other = sessions w !! other) /\
  heap out.2 = heap w /\ next out.2 = next w /\
  match message update with
  | Some _ =>
    exists outcome,
      outbox out.2
      = outbox w ++ [(ReplyText chat (utf8 "🧹 Память очищена!") (Some HTML), outcome)] /\
      outcome = coming w 0 /\
      (out.1 = inl tt <-> outcome = None)
  | None =>
    out.1 = inr no_reply_text /\ exn_class no_reply_text = AttributeError /\
    outbox out.2 = outbox w /\ net out.2 = net w
  end.
Proof.
  intros chat out. subst out. unfold reset, bind.
  destruct (clear_session_footprint chat w)
    as [H1 [H2 [H5 [H6 [H7 [H8 H9]]]]]].
  fold chat. destruct (clear_session chat w) as [[[]|e] w1]; simpl in *;
    [|discriminate].
  unfold reply_text. destruct (message update) as [m|].
  - unfold request, coming. fold chat. rewrite H8, H9.
    destruct (net w) as [|[e|] rest]; simpl;
      (split; [exact H2|]; split; [exact H5|]; split; [exact H6|]; split; [exact H7|]);
      eexists; (split; [reflexivity|]); (split; [reflexivity|]);
      (split; [auto; discriminate|auto; discriminate]).
  - simpl. auto 10.
Qed.

End Store.

(** ** Robustness on a transport that fails with Telegram errors only *)


Section Robust.
Context {ud : UnicodeData}.
Import SessionManager Handlers.

Lemma telegram_is_exception e : is_TelegramError e = true -> is_Exception e = true.
Proof. unfold is_TelegramError, is_Exception. destruct (exn_class e); auto. Qed.

Lemma tame_drop n w w' : net w' = drop n (net w) -> tame w -> tame w'.
Proof. unfold tame. intros ->. apply Forall_drop. Qed.

Lemma calm_gentle {A} (m : M world A) : calm m -> gentle m.
Proof.
  intros Hm w Hw. destruct (Hm w Hw) as [H1 [a H2]]. rewrite H2. auto.
Qed.

Lemma calm_ret {A} (a : A) : calm (ret a).
Proof. intros w Hw. simpl. eauto. Qed.

Lemma calm_bind {A B} (m : M world A) (k : A -> M world B) :
  calm m -> (forall a, calm (k a)) -> calm (bind m k).
Proof.
  intros Hm Hk w Hw. unfold bind. destruct (Hm w Hw) as [H1 [a H2]].
  destruct (m w) as [r w1]. simpl in *. subst r. apply Hk, H1.
Qed.

Lemma gentle_bind {A B} (m : M world A) (k : A -> M world B) :
  gentle m -> (forall a, gentle (k a)) -> gentle (bind m k).
Proof.
  intros Hm Hk w Hw. unfold bind. destruct (Hm w Hw) as [H1 H2].
  destruct (m w) as [[a|e] w1]; simpl in *; [apply Hk, H1|auto].
Qed.

Lemma calm_try_except {A} (m : M world A) h :
  gentle m -> (forall e, calm (h e)) -> calm (try_except m is_Exception h).
Proof.
  intros Hm Hh w Hw. unfold try_except. destruct (Hm w Hw) as [H1 H2].
  destruct (m w) as [[a|e] w1]; simpl in *; [eauto|].
  rewrite H2. apply Hh, H1.
Qed.

Lemma calm_try_finally {A} (m : M world A) final :
  calm m -> calm final -> calm (try_finally m final).
Proof.
  intros Hm Hf w Hw. unfold try_finally. destruct (Hm w Hw) as [H1 [a H2]].
  destruct (m w) as [r w1]. simpl in *. subst r.
  destruct (Hf w1 H1) as [K1 [u K2]].
  destruct (final w1) as [r w2]. simpl in *. subst r. eauto.
Qed.

Lemma calm_send_message chat text role :
  calm (TelegramInterface.send_message chat text role).
Proof.
  intros w Hw.
  destruct (send_message_footprint chat text role w)
    as [new [_ [_ [_ [_ [_ [_ [Hnet _]]]]]]]].
  split; [eapply tame_drop; eassumption|].
  unfold TelegramInterface.send_message.
  destruct (_ || _); [simpl; eauto|].
  unfold try_except, bind, request, ret. unfold tame in Hw.
  destruct (net w) as [|[e|] rest]; simpl; eauto.
  apply Forall_cons in Hw as [He Hrest]. simpl in He. rewrite He.
  destruct rest as [|[e2|] rest]; simpl; eauto.
  apply Forall_cons in Hrest as [He2 _]. simpl in He2.
  rewrite (telegram_is_exception e2 He2). eauto.
Qed.

Lemma calm_set_is_busy session b : calm (set_is_busy session b).
Proof. intros w Hw. simpl. eauto. Qed.

Lemma calm_set_context session b l : calm (set_context session b l).
Proof. intros w Hw. simpl. eauto. Qed.

Lemma tg_send_calm text role a w :
  tame w ->
  let out := tg_send text role (a, w) in
  tame out.2.2 /\ exists b, out.1 = inl b.
Proof.
  intros Hw. unfold tg_send, bind, get, on_world. simpl.
  destruct (calm_send_message (chat_id a) text role w Hw) as [H1 H2].
  destruct (TelegramInterface.send_message (chat_id a) text role w) as [r w1].
  simpl in *. auto.
Qed.

Lemma handler_calm messages agent_name s :
  tame s.2 ->
  let out := _handle_message messages agent_name s in
  tame out.2.2 /\ (exists r, out.1 = inl r) /\ (answered s.1 -> answered out.2.1).
Proof.
  intros Hw out. subst out. rewrite handle_message_act.
  pose proof (classify_payload_solid (last_text messages)) as Hsolid.
  destruct s as [a w]. simpl in Hw.
  destruct (classify (last_text messages)) as [|payload|payload]; simpl fst; simpl snd.
  - simpl. eauto.
  - unfold act, bind, modify, ret, set_termination_detected, set_last_message.
    simpl fst; simpl snd.
    destruct (tg_send_calm (final_answer payload) final_role
                (Mk (chat_id a) true (last_message a)) w Hw) as [H1 [b H2]].
    destruct (tg_send _ _ _) as [r [a1 w1]]. simpl in *. subst r. simpl.
    split; [exact H1|]. split; [eauto|]. intros _ _. exact Hsolid.
  - unfold act, bind, ret.
    pose proof (tg_send_agent payload
                  (role_display agent_name (strip (last_text messages))) a w) as Ha.
    destruct (tg_send_calm payload
                (role_display agent_name (strip (last_text messages))) a w Hw)
      as [H1 [b H2]].
    destruct (tg_send _ _ _) as [r [a1 w1]]. simpl in *. subst r a1. simpl. eauto.
Qed.

Lemma converse_gentle c :
  forall s,
    tame s.2 -> polite c ->
    let out := converse c s in
    tame out.2.2 /\
    match out.1 with inl _ => True | inr e => is_Exception e = true end.
Proof.
  induction c as [| e | agent_name messages k IH]; intros s Hw Hc; simpl in *; auto.
  destruct (handler_calm messages agent_name s Hw) as [H1 _].
  destruct (_handle_message messages agent_name s) as [r s1]. simpl in *.
  apply IH; auto.
Qed.

Lemma converse_answered c :
  forall s,
    tame s.2 -> answered s.1 -> answered (converse c s).2.1.
Proof.
  induction c as [| e | agent_name messages k IH]; intros s Hw Ha; simpl in *; auto.
  destruct (handler_calm messages agent_name s Hw) as [H1 [_ H3]].
  destruct (_handle_message messages agent_name s) as [r s1]. simpl in *.
  apply IH; auto.
Qed.

(** X17.  With a transport that fails with Telegram errors only, a run
    that returns with the flag set has recorded a final answer that is
    not blank. *)
Theorem final_answer_recorded a_initiate_chat task chat w answer s' :
  tame w ->
  AgentSystem.run_task a_initiate_chat task (init chat, w) = (inl (true, answer), s') ->
  is_empty (strip answer) = false.
Proof.
  intros Hw. unfold AgentSystem.run_task, bind, try_except, get, ret, raise.
  pose proof (converse_answered (a_initiate_chat task) (init chat, w) Hw) as Ha.
  destruct (converse _ _) as [[[]|e] [a1 w1]]; simpl in *.
  - intros [= Hflag <- _]. apply Ha; [|exact Hflag]. intros H. discriminate H.
  - destruct (is_Exception e); discriminate.
Qed.

Variable a_initiate_chat : str -> chat.
Hypothesis library_polite : forall task, polite (a_initiate_chat task).

Lemma gentle_run_task session task :
  gentle (SessionManager.run_task a_initiate_chat session task).
Proof.
  intros w Hw. unfold SessionManager.run_task.
  destruct (bot (heap w session)); [|simpl; auto].
  destruct (loop (heap w session)); [|simpl; auto].
  unfold AgentSystem.run_task, bind, try_except, get, ret, raise.
  destruct (converse_gentle (a_initiate_chat task)
              (init (Env.chat_id (heap w session)), w) Hw (library_polite task))
    as [H1 H2].
  destruct (converse _ _) as [[[]|e] [a1 w1]]; simpl in *; [auto|].
  rewrite H2. simpl. auto.
Qed.

Lemma gentle_run_and_report session chat text context :
  gentle (run_and_report a_initiate_chat session chat text context).
Proof.
  unfold run_and_report.
  repeat first
    [ apply calm_gentle, calm_ret
    | apply calm_gentle, calm_set_is_busy
    | apply calm_gentle, calm_set_context
    | apply calm_gentle, calm_send_message
    | apply gentle_run_task
    | apply gentle_bind; [|intros ?]
    | match goal with |- gentle (if ?b then _ else _) => destruct b end ].
Qed.

Lemma calm_report_error chat e : calm (report_error chat e).
Proof.
  unfold report_error. apply calm_bind; [apply calm_send_message|].
  intros _. apply calm_ret.
Qed.


End Robust.

(** ** [config.py]: validation *)

Lemma validate_cases (cfg : Config.t) :
  match Config.validate cfg with
  | inl _ =>
    is_empty (Config.TELEGRAM_TOKEN cfg) = false /\
    is_empty (Config.YANDEX_API_KEY cfg) = false /\
    is_empty (Config.YANDEX_FOLDER_ID cfg) = false
  | inr e =>
    exn_class e = ValueError /\
    contains (utf8 "TELEGRAM_TOKEN") (exn_msg e) = is_empty (Config.TELEGRAM_TOKEN cfg) /\
    contains (utf8 "YANDEX_API_KEY") (exn_msg e) = is_empty (Config.YANDEX_API_KEY cfg) /\
    contains (utf8 "YANDEX_FOLDER_ID") (exn_msg e)
    = is_empty (Config.YANDEX_FOLDER_ID cfg) /\
    (is_empty (Config.TELEGRAM_TOKEN cfg) = true \/
     is_empty (Config.YANDEX_API_KEY cfg) = true \/
     is_empty (Config.YANDEX_FOLDER_ID cfg) = true)
  end.
Proof.
  unfold Config.validate.
  destruct (is_empty (Config.TELEGRAM_TOKEN cfg)),
           (is_empty (Config.YANDEX_API_KEY cfg)),
           (is_empty (Config.YANDEX_FOLDER_ID cfg)); cbn [app]; cbv beta iota;
    cbn [exn_class exn_msg].
  all: try (split; [reflexivity|split; reflexivity]).
  all: split; [reflexivity|].
  all: split; [vm_compute; reflexivity|].
  all: split; [vm_compute; reflexivity|].
  all: split; [vm_compute; reflexivity|].
  all: auto.
Qed.

(** X19.  [validate] accepts exactly the configurations in which the
    Telegram token, the API key and the folder id are all set; otherwise
    it raises one [ValueError] whose message names each missing setting
    and no other. *)
Theorem validate_complete (cfg : Config.t) :
  (Config.validate cfg = inl tt <->
   is_empty (Config.TELEGRAM_TOKEN cfg) = false /\
   is_empty (Config.YANDEX_API_KEY cfg) = false /\
   is_empty (Config.YANDEX_FOLDER_ID cfg) = false) /\
  (forall e, Config.validate cfg = inr e ->
   exn_class e = ValueError /\
   contains (utf8 "TELEGRAM_TOKEN") (exn_msg e) = is_empty (Config.TELEGRAM_TOKEN cfg) /\
   contains (utf8 "YANDEX_API_KEY") (exn_msg e) = is_empty (Config.YANDEX_API_KEY cfg) /\
   contains (utf8 "YANDEX_FOLDER_ID") (exn_msg e)
   = is_empty (Config.YANDEX_FOLDER_ID cfg)).
Proof.
  pose proof (validate_cases cfg) as H.
  destruct (Config.validate cfg) as [[]|e0].
  - split; [split; [intros _; exact H|reflexivity]|intros e He; discriminate He].
  - destruct H as [H1 [H2 [H3 [H4 H5]]]].
    split; [split|].
    + intros He. discriminate He.
    + intros [A [B C]]. destruct H5 as [H5|[H5|H5]]; congruence.
    + intros e [= <-]. auto.
Qed.

(** ** The further properties on examples *)

Lemma tags_stripped_witness :
  ~ In 60 (utf8 "2 > 1") /\
  TelegramInterface.re_sub TelegramInterface.match_tag [] (utf8 "2 > 1") = utf8 "2 > 1".
Proof.
  assert (H : ~ In 60 (utf8 "2 > 1")) by (vm_compute; intuition discriminate).
  split; [exact H|]. exact (proj2 (tags_stripped (utf8 "2 > 1")) H).
Defined.

Lemma format_message_generic_fence_witness :
  let text := utf8 "```" ++ [10] ++ utf8 "x = 1" ++ [10] ++ utf8 "```" in
  contains (utf8 ">>>>>>>> EXECUTING CODE BLOCK") (strip text) = false /\
  contains (utf8 "exitcode:") (strip text) = false /\
  contains (utf8 "```python") (strip text) = false /\
  @TelegramInterface._format_message ascii_classes text (utf8 "Coder")
  = utf8 "<b>Coder</b>" ++ [10; 10]
    ++ utf8 "<pre><code>" ++ [10] ++ utf8 "x = 1" ++ [10] ++ utf8 "<pre><code>".
Proof.
  intros text.
  split; [reflexivity|]. split; [reflexivity|]. split; [reflexivity|].
  exact (@format_message_generic_fence ascii_classes text (utf8 "Coder")
           eq_refl eq_refl eq_refl).
Defined.

Lemma handler_ignores_blank_witness :
  is_empty (strip (last_text [])) = true /\
  is_empty (strip (last_text [Msg (Some (utf8 "hi")); Msg None])) = true /\
  @_handle_message ascii_classes [] (utf8 "coder") (init 5, empty_world)
  = (inl (false, None), (init 5, empty_world)) /\
  @_handle_message ascii_classes [Msg (Some (utf8 "hi")); Msg None] (utf8 "coder")
    (init 5, empty_world)
  = (inl (false, None), (init 5, empty_world)).
Proof.
  split; [reflexivity|]. split; [reflexivity|]. split.
  - exact (@handler_ignores_blank ascii_classes [] (utf8 "coder") _ eq_refl).
  - exact (@handler_ignores_blank ascii_classes [Msg (Some (utf8 "hi")); Msg None]
             (utf8 "coder") _ eq_refl).
Defined.

Lemma run_task_flag_witness :
  let lib := fun _ : str =>
        Reply (utf8 "analyst") [Msg (Some (utf8 "4. TERMINATE"))] (fun _ => Return) in
  let s0 := (init 5, empty_world) in
  exists s',
    @AgentSystem.run_task ascii_classes lib (utf8 "what is 2+2") s0
    = (inl (true, utf8 "4."), s') /\
    Exists is_termination (@heard ascii_classes (lib (utf8 "what is 2+2")) s0).
Proof.
  intros lib s0. eexists. split; [reflexivity|].
  eapply (@run_task_flag ascii_classes lib (utf8 "what is 2+2") 5 empty_world);
    reflexivity.
Defined.

Lemma busy_world_registered : registered busy_world.
Proof.
  intros k r H. destruct (decide (k = 7%Z)) as [->|Hne].
  - vm_compute in H. injection H as <-. split; [vm_compute; lia|reflexivity].
  - unfold busy_world in H. simpl in H.
    rewrite lookup_singleton_ne in H by congruence. discriminate.
Defined.

Lemma handlers_keep_registered_witness :
  registered busy_world /\
  registered (Handlers.start second_task a_context busy_world).2 /\
  registered (Handlers.reset second_task a_context busy_world).2 /\
  registered (@Handlers.handle_message ascii_classes (fun _ => Return) second_task
                a_context busy_world).2.
Proof.
  split; [exact busy_world_registered|].
  exact (@handlers_keep_registered ascii_classes (fun _ => Return) second_task a_context
           busy_world busy_world_registered).
Defined.

Lemma handle_message_isolated_witness :
  let update :=
    Handlers.MkUpdate (Some (Handlers.MkMessage (Some (utf8 "hello")))) 8 in
  let out := @Handlers.handle_message ascii_classes (fun _ => Return) update a_context
               busy_world in
  registered busy_world /\
  7%Z <> Handlers.effective_chat_id update /\
  sessions out.2 !! 7%Z = Some 0%nat /\
  heap out.2 0%nat = heap busy_world 0%nat.
Proof.
  intros update out.
  assert (Hne : 7%Z <> Handlers.effective_chat_id update) by discriminate.
  destruct (@handle_message_isolated ascii_classes (fun _ => Return) update a_context
              busy_world 7%Z busy_world_registered Hne) as [H1 H2].
  split; [exact busy_world_registered|]. split; [exact Hne|].
  split; [exact H1|]. exact (H2 0%nat eq_refl).
Defined.

Lemma handle_message_passes_over_witness :
  let blank := Handlers.MkUpdate (Some (Handlers.MkMessage (Some (utf8 "   ")))) 7 in
  nothing_to_do blank /\
  @Handlers.handle_message ascii_classes (fun _ => Return) blank a_context empty_world
  = (inl tt, empty_world).
Proof.
  intros blank. split; [reflexivity|].
  exact (@handle_message_passes_over ascii_classes (fun _ => Return) blank a_context
           empty_world eq_refl).
Defined.

(** On an update without message both commands raise before any request
    is made; [reset] has removed the entry of the chat by then. *)
Example commands_without_message :
  let out1 := Handlers.start edited_update a_context busy_world in
  let out2 := Handlers.reset edited_update a_context busy_world in
  out1 = (inr Handlers.no_reply_text, busy_world) /\
  out2.1 = inr Handlers.no_reply_text /\
  sessions busy_world !! 7%Z = Some 0%nat /\
  sessions out2.2 !! 7%Z = None /\
  outbox out2.2 = outbox busy_world /\ net out2.2 = net busy_world.
Proof. repeat split. Qed.

Lemma final_answer_recorded_witness :
  let lib := fun _ : str =>
        Reply (utf8 "analyst") [Msg (Some (utf8 "TERMINATE"))] (fun _ => Return) in
  let w := MkWorld ∅ (heap empty_world) 0
             [Some (Exn TelegramError (utf8 "bad request"))] [] in
  tame w /\
  @AgentSystem.run_task ascii_classes lib (utf8 "task") (init 5, w)
  = (inl (true, default_answer),
     (@AgentSystem.run_task ascii_classes lib (utf8 "task") (init 5, w)).2) /\
  is_empty (strip default_answer) = false.
Proof.
  intros lib w.
  assert (Hw : tame w) by (repeat constructor).
  assert (Hrun : @AgentSystem.run_task ascii_classes lib (utf8 "task") (init 5, w)
                 = (inl (true, default_answer),
                    (@AgentSystem.run_task ascii_classes lib (utf8 "task")
                       (init 5, w)).2))
    by (vm_compute; reflexivity).
  split; [exact Hw|]. split; [exact Hrun|].
  exact (final_answer_recorded lib (utf8 "task") 5 w default_answer _ Hw Hrun).
Defined.

(** Without that condition on the transport a run can end with the flag
    set and nothing recorded: the request of the final answer raises
    before [last_message] is assigned. *)
Example flag_without_answer :
  let lib := fun _ : str =>
        Reply (utf8 "analyst") [Msg (Some (utf8 "4. TERMINATE"))] (fun _ => Return) in
  let w := MkWorld ∅ (heap empty_world) 0
             [Some (Exn OtherException (utf8 "connection reset"))] [] in
  (@AgentSystem.run_task ascii_classes lib (utf8 "task") (init 5, w)).1
  = inl (true, []).
Proof. vm_compute. reflexivity. Qed.


(** ** No busy flag is left behind *)

Section Idle.
Context {ud : UnicodeData}.
Import SessionManager Handlers.
Variable a_initiate_chat : str -> chat.

(** X20.  No handler returns with a busy flag left behind: in a sound
    dictionary in which no session is busy, no session is busy after
    [start], after [reset] or after [handle_message], whether the task
    ended with a final answer, without one, or with an exception. *)
Theorem handlers_leave_idle update context w :
  registered w ->
  idle w ->
  idle (start update context w).2 /\
  idle (reset update context w).2 /\
  idle (handle_message a_initiate_chat update context w).2.
Proof.
  intros Hreg Hidle.
  assert (Hkeep : forall (run : M world unit) w0,
             (forall w1, sessions (run w1).2 = sessions w1 /\ heap (run w1).2 = heap w1) ->
             idle w0 -> idle (run w0).2).
  { intros run w0 Hrun H0 k r Hk. destruct (Hrun w0) as [H1 H2].
    rewrite H1 in Hk. rewrite H2. apply (H0 k r Hk). }
  assert (Hreq : forall text mode w1,
             sessions (reply_text update text mode w1).2 = sessions w1 /\
             heap (reply_text update text mode w1).2 = heap w1).
  { intros text mode w1. unfold reply_text, request.
    destruct (message update); [|simpl; auto].
    destruct (net w1) as [|[e|] rest]; simpl; auto. }
  split; [|split].
  - apply Hkeep; [|exact Hidle]. intros w1. apply Hreq.
  - unfold reset, bind.
    destruct (clear_session_footprint (effective_chat_id update) w)
      as [H1 [_ [H3 [H4 _]]]].
    assert (Hc : idle (clear_session (effective_chat_id update) w).2).
    { intros k r Hk. rewrite H4.
      destruct (decide (k = effective_chat_id update)) as [->|Hne].
      - unfold clear_session in Hk.
        destruct (sessions w !! effective_chat_id update) eqn:E; simpl in Hk.
        + rewrite lookup_delete_eq in Hk. discriminate.
        + apply (Hidle _ r Hk).
      - rewrite H3 in Hk by exact Hne. apply (Hidle k r Hk). }
    destruct (clear_session (effective_chat_id update) w) as [[[]|e] w1];
      simpl in *; [|exact Hc].
    apply Hkeep; [|exact Hc]. intros w2. apply Hreq.
  - assert (Hskip : nothing_to_do update ->
                    handle_message a_initiate_chat update context w = (inl tt, w)).
    { unfold nothing_to_do, handle_message.
      destruct (message update) as [m|]; [|reflexivity].
      destruct (text m) as [raw|]; [|reflexivity].
      intros H. destruct (is_empty raw); [reflexivity|]. rewrite H. reflexivity. }
    unfold nothing_to_do in Hskip.
    destruct (message update) as [[[raw|]]|] eqn:Hm; simpl in Hskip;
      try (rewrite Hskip by exact I; exact Hidle).
    destruct (is_empty (strip raw)) eqn:Hne;
      [rewrite Hskip by reflexivity; exact Hidle|].
    clear Hskip. set (chat := effective_chat_id update) in *.
    destruct (get_session_footprint chat w) as [session [E1 [E2 [E3 [E4 _]]]]].
    assert (Hfree : is_busy (heap (get_session chat w).2 session) = false).
    { destruct (get_session_cases chat w) as [[s0 [Hs Hget]]|[_ Hget]];
        rewrite Hget in E1 |- *; injection E1 as <-.
      - apply (Hidle chat s0 Hs).
      - simpl. rewrite fn_lookup_insert. reflexivity. }
    destruct (get_session chat w) as [r0 w1] eqn:Hget. simpl in E1, E2, E3, E4, Hfree.
    subst r0.
    rewrite (handle_message_runs a_initiate_chat update context w raw session w1
               Hm Hne Hget Hfree).
    destruct (guarded_run_releases
                (try_except (run_and_report a_initiate_chat session chat (strip raw) context)
                            is_Exception (report_error chat))
                session w1) as [Hs Hb].
    { apply keeps_registry_try_except;
        [apply keeps_registry_run_and_report|apply keeps_registry_report_error]. }
    destruct (touches_only_guarded_run a_initiate_chat session chat (strip raw) context w1)
      as [_ [_ [H3 _]]].
    fold chat. intros k r Hk. rewrite Hs in Hk.
    destruct (decide (r = session)) as [->|Hr]; [exact Hb|].
    rewrite H3 by exact Hr.
    destruct (decide (k = chat)) as [->|Hne'].
    + rewrite E2 in Hk. congruence.
    + rewrite E3 in Hk by exact Hne'.
      destruct (Hreg k r Hk) as [Hlt _]. rewrite E4 by exact Hlt.
      apply (Hidle k r Hk).
Qed.

End Idle.

Lemma handlers_leave_idle_witness :
  let failing := fun _ : str => Raise (Exn BaseException (utf8 "cancelled")) in
  registered empty_world /\ idle empty_world /\
  idle (@Handlers.handle_message ascii_classes failing second_task a_context
          empty_world).2.
Proof.
  intros failing.
  assert (Hr : registered empty_world).
  { intros k r H. vm_compute in H. discriminate H. }
  assert (Hi : idle empty_world).
  { intros k r H. vm_compute in H. discriminate H. }
  split; [exact Hr|]. split; [exact Hi|].
  exact (proj2 (proj2 (@handlers_leave_idle ascii_classes failing second_task a_context
                         empty_world Hr Hi))).
Defined.
